(** * omnisnip: the snippet store ([StorageService])

    A shallow embedding of [apps/cli/src/services/storage.service.ts] and of
    the shared declarations in [packages/types], followed by the properties
    of the store.

    The service keeps the whole collection in one JSON file.  Every method
    is asynchronous and either fulfils with a value or rejects with an
    [Error]; here a method is a function from the state of the outside
    world to a settled result and the next state of the world.  The world
    holds what the service cannot see into: the file at [dataFile], the
    faults the file system may raise, and the values that [uuidv4()] and
    [new Date()] are about to return. *)

From Stdlib Require Import ZArith List String Ascii Bool Lia.
From Stdlib Require Import DecimalString DecimalNat.
From Stdlib Require Import Permutation Sorted Finite.
Import ListNotations.

Local Open Scope string_scope.
Local Open Scope Z_scope.
Local Open Scope list_scope.

(** ** Text

    JavaScript strings are modelled by [string]; the characters are the
    ASCII range, where [toLowerCase] maps [A-Z] to [a-z] and leaves every
    other character alone, and where [<] on strings is the lexicographic
    order on character codes. *)

Definition lowerAscii (c : ascii) : ascii :=
  let n := N_of_ascii c in
  if ((65 <=? n)%N && (n <=? 90)%N)%bool then ascii_of_N (n + 32) else c.

Fixpoint toLowerCase (s : string) : string :=
  match s with
  | EmptyString => EmptyString
  | String c s' => String (lowerAscii c) (toLowerCase s')
  end.

(** [s.includes(sub)]: [sub] occurs in [s] at some position. *)
Fixpoint includes (s sub : string) : bool :=
  String.prefix sub s
  || match s with
     | EmptyString => false
     | String _ s' => includes s' sub
     end.

(** Truthiness of a string in a condition: only the empty string is falsy. *)
Definition truthy (s : string) : bool := negb (String.eqb s "").

(** [a ?? b] on an optional field. *)
Definition nullish {A : Type} (a : option A) (b : A) : A :=
  match a with
  | Some v => v
  | None => b
  end.

(** ** Arrays *)

Fixpoint findIndexFrom {A : Type} (p : A -> bool) (l : list A) (k : Z) : Z :=
  match l with
  | [] => -1
  | x :: l' => if p x then k else findIndexFrom p l' (k + 1)
  end.

(** [l.findIndex(p)]: the first position whose element satisfies [p],
    or [-1]. *)
Definition findIndex {A : Type} (p : A -> bool) (l : list A) : Z :=
  findIndexFrom p l 0.

(** [l[i]]: [undefined] (here [None]) outside the array. *)
Definition Array_get {A : Type} (l : list A) (i : Z) : option A :=
  if i <? 0 then None else nth_error l (Z.to_nat i).

Fixpoint setNth {A : Type} (l : list A) (n : nat) (v : A) : list A :=
  match l, n with
  | [], _ => []
  | _ :: l', O => v :: l'
  | x :: l', S n' => x :: setNth l' n' v
  end.

(** [l[i] = v] for a position inside the array.  [update] is the only
    caller and assigns only at an index that [findIndex] has found, so the
    growth of a JavaScript array on an assignment past its end is not
    represented: outside the array the list is returned as it is. *)
Definition Array_set {A : Type} (l : list A) (i : Z) (v : A) : list A :=
  if i <? 0 then l else setNth l (Z.to_nat i) v.

(** [l.includes(x)] on an array of strings. *)
Definition Array_includes (l : list string) (x : string) : bool :=
  existsb (String.eqb x) l.

(** [Array.prototype.sort] with a comparator.  The language requires the
    sort to be stable; for a comparator that is a consistent ordering the
    result is then determined, and it is the one computed here by
    insertion from the right: an element is placed before the first
    element of the already sorted tail that it does not exceed. *)
Section ArraySort.
Context {A : Type} (cmp : A -> A -> Z).

Fixpoint sortInsert (x : A) (l : list A) : list A :=
  match l with
  | [] => [x]
  | y :: l' => if cmp x y <=? 0 then x :: y :: l' else y :: sortInsert x l'
  end.

Fixpoint Array_sort (l : list A) : list A :=
  match l with
  | [] => []
  | x :: l' => sortInsert x (Array_sort l')
  end.
End ArraySort.

(** ** Shared types ([packages/types]) *)

Definition UUID := string.

(** [Timestamp = Date | string]: a [Date] object in memory, an ISO 8601
    string once serialized.  Both are represented by the instant they
    denote, in milliseconds since the epoch; [IsoString t] stands for the
    text [new Date(t).toISOString()]. *)
Inductive Timestamp : Type :=
| DateObject (t : Z)
| IsoString (t : Z).

(** [new Date(v).getTime()]. *)
Definition getTime (v : Timestamp) : Z :=
  match v with
  | DateObject t => t
  | IsoString t => t
  end.

(** What [JSON.stringify] writes for a timestamp: a [Date] serializes
    through [toISOString], a string stays as it is. *)
Definition Timestamp_toJSON (v : Timestamp) : Timestamp :=
  IsoString (getTime v).

Inductive SortOrder : Type := asc | desc.

Definition SnippetLanguage := string.
Definition SnippetCategory := string.

Definition SNIPPET_LANGUAGES : list SnippetLanguage :=
  [ "javascript"; "typescript"; "python"; "java"; "csharp"; "bash"; "cpp";
    "ruby"; "go"; "php"; "swift"; "kotlin"; "rust"; "html"; "css"; "json";
    "yaml"; "markdown"; "shell"; "sql"; "r"; "perl"; "dart"; "objective-c";
    "scala"; "haskell"; "lua"; "elixir"; "clojure"; "groovy";
    "plaintext" ]%string.

Definition SNIPPET_CATEGORIES : list SnippetCategory :=
  [ "function"; "utility"; "config"; "algorithm"; "boilerplate"; "example";
    "other" ]%string.

Module Snippet.
Record t : Type := make {
  id : UUID;
  title : string;
  description : string;
  code : string;
  language : SnippetLanguage;
  category : SnippetCategory;
  tags : list string;
  createdAt : Timestamp;
  updatedAt : Timestamp;
  favorite : bool
}.

(** The object as [JSON.stringify] followed by [JSON.parse] gives it
    back: the same fields, the two timestamps as strings. *)
Definition toJSON (s : t) : t :=
  make (id s) (title s) (description s) (code s) (language s)
       (category s) (tags s)
       (Timestamp_toJSON (createdAt s)) (Timestamp_toJSON (updatedAt s))
       (favorite s).
End Snippet.

(** The object handed to [add].  The interface declares the first seven
    fields.  An object of a wider type is assignable to it (a [Snippet]
    read earlier, say), and [add] spreads the whole object into the new
    record: [id] is the own [id] property of the object when it carries
    one.  The other properties such an object may carry are either
    overwritten by [add] ([createdAt], [updatedAt]) or not fields of a
    snippet, and are not represented. *)
Module CreateSnippetInput.
Record t : Type := make {
  title : string;
  description : string;
  code : string;
  language : SnippetLanguage;
  category : SnippetCategory;
  tags : option (list string);
  favorite : option bool;
  id : option UUID
}.
End CreateSnippetInput.

(** [Partial<Omit<Snippet, "id" | "createdAt" | "updatedAt">>]. *)
Module UpdateSnippetInput.
Record t : Type := make {
  title : option string;
  description : option string;
  code : option string;
  language : option SnippetLanguage;
  category : option SnippetCategory;
  tags : option (list string);
  favorite : option bool
}.
End UpdateSnippetInput.

Inductive SnippetSortField : Type :=
| byCreatedAt
| byUpdatedAt
| byTitle
| byLanguage
| byCategory
| byFavorite.

Module SnippetSort.
Record t : Type := make {
  field : SnippetSortField;
  order : SortOrder
}.
End SnippetSort.

Module SnippetFilter.
Record t : Type := make {
  query : option string;
  language : option SnippetLanguage;
  category : option SnippetCategory;
  tags : option (list string);
  favorite : option bool;
  sortBy : option SnippetSortField;
  sortOrder : option SortOrder
}.

(** The filter [{}]. *)
Definition empty : t := make None None None None None None None.
End SnippetFilter.

(** ** Errors, the outside world, and asynchronous computations *)

(** A thrown JavaScript error object: its [name], its [message], and the
    [code] property that a file system error ([NodeJS.ErrnoException])
    carries. *)
Module JsError.
Record t : Type := make {
  name : string;
  message : string;
  code : option string
}.

(** The interpolation [`${error}`]. *)
Definition toString (e : t) : string :=
  (name e ++ ": " ++ message e)%string.

(** [new Error(msg)]. *)
Definition Error (msg : string) : t := make "Error" msg None.

(** What [JSON.parse] throws. *)
Definition SyntaxError (msg : string) : t := make "SyntaxError" msg None.

(** [error.code === c]. *)
Definition hasCode (e : t) (c : string) : bool :=
  match code e with
  | Some c' => String.eqb c' c
  | None => false
  end.
End JsError.

(** The text of the data file, up to what [JSON.parse] makes of it:
    [Garbage raw complaint] is a text [raw] outside the JSON grammar, on
    which the parser throws a [SyntaxError] saying [complaint];
    [Serialized doc] is the JSON text of the array [doc] of snippets.
    A text that is JSON but not an array of snippets (an object, [null],
    an array of other things), which [readJSONFile] would hand on under
    its unchecked cast, is not represented: the statements below speak of
    files that hold a collection or no JSON at all. *)
Inductive FileText : Type :=
| Garbage (raw complaint : string)
| Serialized (doc : list Snippet.t).

(** What [fs.readFile(dataFile)] meets: a rejection with a file system
    error (code [ENOENT] when there is no such file), or the file's text. *)
Inductive Node : Type :=
| Rejects (e : JsError.t)
| Holds (text : FileText).

(** The calls that change the file system: a [mkdir], a [writeFile] that
    went through, and a [writeFile] that failed after it had truncated
    the file, leaving [part]. *)
Inductive FsCall : Type :=
| Mkdir
| WriteFile (text : FileText)
| BrokenWrite (part : string).

(** How [fs.writeFile] fails.  It opens the data file itself with flag
    [w], which empties it, and then writes the text in place.  A failure
    at the open (no permission) leaves the file as it was; a failure
    after the open (disk full) leaves the initial part [part] of the text
    that got through, possibly nothing. *)
Inductive WriteFault : Type :=
| FailsAtOpen (e : JsError.t)
| FailsAfterOpen (e : JsError.t) (part : string).

Record World : Type := mkWorld {
  node : Node;
  mkdirFault : option JsError.t;  (* the error [fs.mkdir] rejects with *)
  writeFault : option WriteFault; (* how [fs.writeFile] fails *)
  uuidSource : nat -> UUID;       (* the successive results of [uuidv4()] *)
  uuidDrawn : nat;
  clockSource : nat -> Z;         (* the successive readings of the clock *)
  clockRead : nat;
  journal : list FsCall;          (* the changing calls made so far *)
  (* the generator never returns the same identifier twice *)
  uuidDistinct : forall i j : nat, uuidSource i = uuidSource j -> i = j
}.

Inductive Settled (A : Type) : Type :=
| Fulfilled (a : A)
| Rejected (e : JsError.t).
Arguments Fulfilled {A} a.
Arguments Rejected {A} e.

Definition Promise (A : Type) : Type := World -> Settled A * World.

Definition resolve {A : Type} (a : A) : Promise A :=
  fun w => (Fulfilled a, w).

Definition throw {A : Type} (e : JsError.t) : Promise A :=
  fun w => (Rejected e, w).

(** [await m] followed by [k]. *)
Definition await {A B : Type} (m : Promise A) (k : A -> Promise B)
  : Promise B :=
  fun w =>
    match m w with
    | (Fulfilled a, w') => k a w'
    | (Rejected e, w') => (Rejected e, w')
    end.

(** [try { m } catch (error) { h error }]. *)
Definition tryCatch {A : Type} (m : Promise A) (h : JsError.t -> Promise A)
  : Promise A :=
  fun w =>
    match m w with
    | (Fulfilled a, w') => (Fulfilled a, w')
    | (Rejected e, w') => h e w'
    end.

Notation "x <- m ;; k" := (await m (fun x => k))
  (at level 61, m at next level, right associativity).
Notation "m ;;; k" := (await m (fun _ => k))
  (at level 61, right associativity).

(** *** The platform *)

Definition fs_readFile : Promise FileText :=
  fun w =>
    match node w with
    | Rejects e => (Rejected e, w)
    | Holds text => (Fulfilled text, w)
    end.

Definition fs_mkdir : Promise unit :=
  fun w =>
    match mkdirFault w with
    | Some e => (Rejected e, w)
    | None =>
        (Fulfilled tt,
         mkWorld (node w) (mkdirFault w) (writeFault w)
                 (uuidSource w) (uuidDrawn w) (clockSource w) (clockRead w)
                 (journal w ++ [Mkdir]) (uuidDistinct w))
    end.

Definition fs_writeFile (text : FileText) : Promise unit :=
  fun w =>
    match writeFault w with
    | Some (FailsAtOpen e) => (Rejected e, w)
    | Some (FailsAfterOpen e part) =>
        (Rejected e,
         mkWorld (Holds (Garbage part "Unexpected end of JSON input"))
                 (mkdirFault w) (writeFault w)
                 (uuidSource w) (uuidDrawn w) (clockSource w) (clockRead w)
                 (journal w ++ [BrokenWrite part]) (uuidDistinct w))
    | None =>
        (Fulfilled tt,
         mkWorld (Holds text) (mkdirFault w) (writeFault w)
                 (uuidSource w) (uuidDrawn w) (clockSource w) (clockRead w)
                 (journal w ++ [WriteFile text]) (uuidDistinct w))
    end.

Definition JSON_parse (text : FileText) : Promise (list Snippet.t) :=
  match text with
  | Garbage _ complaint => throw (JsError.SyntaxError complaint)
  | Serialized doc => resolve doc
  end.

Definition JSON_stringify (data : list Snippet.t) : FileText :=
  Serialized (map Snippet.toJSON data).

Definition uuidv4 : Promise UUID :=
  fun w =>
    (Fulfilled (uuidSource w (uuidDrawn w)),
     mkWorld (node w) (mkdirFault w) (writeFault w)
             (uuidSource w) (S (uuidDrawn w)) (clockSource w) (clockRead w)
             (journal w) (uuidDistinct w)).

(** [new Date()]: a [Date] object holding the current reading of the
    clock. *)
Definition newDate : Promise Timestamp :=
  fun w =>
    (Fulfilled (DateObject (clockSource w (clockRead w))),
     mkWorld (node w) (mkdirFault w) (writeFault w)
             (uuidSource w) (uuidDrawn w) (clockSource w) (S (clockRead w))
             (journal w) (uuidDistinct w)).

(** ** The values compared by [sortSnippets]

    The comparator works on [any]: it reads [a[field]] and rewrites it
    according to its run-time type. *)
Inductive JsValue : Type :=
| VTimestamp (v : Timestamp)
| VNumber (n : Z)
| VString (s : string)
| VBoolean (b : bool).

Definition isBoolean (v : JsValue) : bool :=
  match v with VBoolean _ => true | _ => false end.

Definition isString (v : JsValue) : bool :=
  match v with VString _ => true | _ => false end.

(** [new Date(v).getTime()] on a field that holds a timestamp. *)
Definition dateTime (v : JsValue) : JsValue :=
  match v with
  | VTimestamp t => VNumber (getTime t)
  | _ => v
  end.

(** [v ? 1 : 0] on a field that holds a boolean. *)
Definition boolNumber (v : JsValue) : JsValue :=
  match v with
  | VBoolean b => VNumber (if b then 1 else 0)
  | _ => v
  end.

(** [v.toLowerCase()] on a field that holds a string. *)
Definition lowerValue (v : JsValue) : JsValue :=
  match v with
  | VString s => VString (toLowerCase s)
  | _ => v
  end.

(** [a < b] on two numbers or on two strings, the only pairs that the two
    values of one field can form once rewritten. *)
Definition js_lt (a b : JsValue) : bool :=
  match a, b with
  | VNumber x, VNumber y => x <? y
  | VString x, VString y => String.ltb x y
  | _, _ => false
  end.

Definition js_gt (a b : JsValue) : bool := js_lt b a.

(** [a[field]]. *)
Definition getField (a : Snippet.t) (field : SnippetSortField) : JsValue :=
  match field with
  | byCreatedAt => VTimestamp (Snippet.createdAt a)
  | byUpdatedAt => VTimestamp (Snippet.updatedAt a)
  | byTitle => VString (Snippet.title a)
  | byLanguage => VString (Snippet.language a)
  | byCategory => VString (Snippet.category a)
  | byFavorite => VBoolean (Snippet.favorite a)
  end.

Definition isDateField (field : SnippetSortField) : bool :=
  match field with
  | byCreatedAt | byUpdatedAt => true
  | _ => false
  end.

(** ** The service *)

Module StorageService.

(** [ensureStoragePath]: [fs.mkdir(storagePath, { recursive: true })],
    any failure rethrown under the service's own message. *)
Definition ensureStoragePath : Promise unit :=
  tryCatch fs_mkdir
    (fun error =>
       throw (JsError.Error
                ("Failed to create storage directory: "
                 ++ JsError.toString error)%string)).

(** [readJSONFile]: read and parse; only a failure whose [code] is
    [ENOENT] is turned into the empty array. *)
Definition readJSONFile : Promise (list Snippet.t) :=
  tryCatch
    (data <- fs_readFile ;;
     JSON_parse data)
    (fun error =>
       if JsError.hasCode error "ENOENT" then resolve []
       else
         throw (JsError.Error
                  ("Failed to read storage file: "
                   ++ JsError.toString error)%string)).

Definition writeJSONFile (data : list Snippet.t) : Promise unit :=
  ensureStoragePath ;;;
  tryCatch
    (let json := JSON_stringify data in
     fs_writeFile json)
    (fun error =>
       throw (JsError.Error
                ("Failed to write storage file: "
                 ++ JsError.toString error)%string)).

(** [add].  In the object literal the spread [...input] comes after
    [id: uuidv4()] and before the other generated fields: an [id] that the
    input carries replaces the generated one, whereas [favorite], [tags],
    [createdAt] and [updatedAt] are set after the spread. *)
Definition add (input : CreateSnippetInput.t) : Promise Snippet.t :=
  snippets <- readJSONFile ;;
  id <- uuidv4 ;;
  createdAt <- newDate ;;
  updatedAt <- newDate ;;
  let newSnippet :=
    Snippet.make (nullish (CreateSnippetInput.id input) id)
      (CreateSnippetInput.title input)
      (CreateSnippetInput.description input)
      (CreateSnippetInput.code input)
      (CreateSnippetInput.language input)
      (CreateSnippetInput.category input)
      (nullish (CreateSnippetInput.tags input) [])
      createdAt
      updatedAt
      (nullish (CreateSnippetInput.favorite input) false) in
  let snippets := snippets ++ [newSnippet] in
  writeJSONFile snippets ;;;
  resolve newSnippet.

Definition getAll : Promise (list Snippet.t) :=
  readJSONFile.

(** [snippets.find(...) || null]. *)
Definition getById (id : UUID) : Promise (option Snippet.t) :=
  snippets <- readJSONFile ;;
  resolve (find (fun snippet => String.eqb (Snippet.id snippet) id) snippets).

Definition update (id : UUID) (input : UpdateSnippetInput.t)
  : Promise (option Snippet.t) :=
  snippets <- readJSONFile ;;
  let index :=
    findIndex (fun snippet => String.eqb (Snippet.id snippet) id) snippets in
  let originalSnippet := Array_get snippets index in
  match index =? -1, originalSnippet with
  | true, _ | _, None => resolve None
  | false, Some originalSnippet =>
        updatedAt <- newDate ;;
        let updatedSnippet :=
          Snippet.make
            (Snippet.id originalSnippet)
            (nullish (UpdateSnippetInput.title input)
                     (Snippet.title originalSnippet))
            (nullish (UpdateSnippetInput.description input)
                     (Snippet.description originalSnippet))
            (nullish (UpdateSnippetInput.code input)
                     (Snippet.code originalSnippet))
            (nullish (UpdateSnippetInput.language input)
                     (Snippet.language originalSnippet))
            (nullish (UpdateSnippetInput.category input)
                     (Snippet.category originalSnippet))
            (nullish (UpdateSnippetInput.tags input)
                     (Snippet.tags originalSnippet))
            (Snippet.createdAt originalSnippet)
            updatedAt
            (nullish (UpdateSnippetInput.favorite input)
                     (Snippet.favorite originalSnippet)) in
        let snippets := Array_set snippets index updatedSnippet in
        writeJSONFile snippets ;;;
        resolve (Some updatedSnippet)
  end.

Definition delete (id : UUID) : Promise bool :=
  snippets <- readJSONFile ;;
  let filtered :=
    List.filter
      (fun snippet => negb (String.eqb (Snippet.id snippet) id)) snippets in
  if negb (Nat.eqb (List.length filtered) (List.length snippets)) then
    writeJSONFile filtered ;;;
    resolve true
  else resolve false.

Definition deleteAll : Promise unit :=
  writeJSONFile [].

(** The predicate that [filter] hands to [snippets.filter]: each
    criterion that is set and truthy can reject the snippet. *)
Definition matches (filter : SnippetFilter.t) (snippet : Snippet.t) : bool :=
  let queryRejects :=
    match SnippetFilter.query filter with
    | Some query =>
        if truthy query then
          let lowerSearchQuery := toLowerCase query in
          let matchesQuery :=
            includes (toLowerCase (Snippet.title snippet)) lowerSearchQuery
            || includes (toLowerCase (Snippet.description snippet))
                        lowerSearchQuery
            || includes (toLowerCase (Snippet.code snippet))
                        lowerSearchQuery in
          negb matchesQuery
        else false
    | None => false
    end in
  let languageRejects :=
    match SnippetFilter.language filter with
    | Some language =>
        truthy language
        && negb (String.eqb (Snippet.language snippet) language)
    | None => false
    end in
  let categoryRejects :=
    match SnippetFilter.category filter with
    | Some category =>
        truthy category
        && negb (String.eqb (Snippet.category snippet) category)
    | None => false
    end in
  let tagsReject :=
    match SnippetFilter.tags filter with
    | Some tags =>
        if (0 <? List.length tags)%nat then
          let hasMatchingTag :=
            existsb (fun tag => Array_includes (Snippet.tags snippet) tag)
                    tags in
          negb hasMatchingTag
        else false
    | None => false
    end in
  let favoriteRejects :=
    match SnippetFilter.favorite filter with
    | Some favorite => negb (Bool.eqb (Snippet.favorite snippet) favorite)
    | None => false
    end in
  if queryRejects then false
  else if languageRejects then false
  else if categoryRejects then false
  else if tagsReject then false
  else if favoriteRejects then false
  else true.

(** The comparator that [sortSnippets] hands to [sort]. *)
Definition compareSnippets (sort : SnippetSort.t) (a b : Snippet.t) : Z :=
  let field := SnippetSort.field sort in
  let order := SnippetSort.order sort in
  let aVal := getField a field in
  let bVal := getField b field in
  let '(aVal, bVal) :=
    if isDateField field then (dateTime aVal, dateTime bVal)
    else (aVal, bVal) in
  let '(aVal, bVal) :=
    if isBoolean aVal then (boolNumber aVal, boolNumber bVal)
    else (aVal, bVal) in
  let '(aVal, bVal) :=
    if isString aVal then (lowerValue aVal, lowerValue bVal)
    else (aVal, bVal) in
  let comparison :=
    if js_lt aVal bVal then -1
    else if js_gt aVal bVal then 1
    else 0 in
  match order with
  | asc => comparison
  | desc => - comparison
  end.

Definition sortSnippets (snippets : list Snippet.t) (sort : SnippetSort.t)
  : list Snippet.t :=
  Array_sort (compareSnippets sort) snippets.

(** [filter(filter = {})]: [None] is the call without an argument. *)
Definition filter (arg : option SnippetFilter.t) : Promise (list Snippet.t) :=
  let filter := nullish arg SnippetFilter.empty in
  snippets <- readJSONFile ;;
  let filtered := List.filter (matches filter) snippets in
  let filtered :=
    match SnippetFilter.sortBy filter with
    | Some sortBy =>
        sortSnippets filtered
          (SnippetSort.make sortBy
             (nullish (SnippetFilter.sortOrder filter) asc))
    | None => filtered
    end in
  resolve filtered.

Definition search (searchQuery : string) : Promise (list Snippet.t) :=
  filter (Some (SnippetFilter.make (Some searchQuery)
                  None None None None None None)).

End StorageService.

(** ** The kinds of failure, told apart by the message the service puts
    in front of the cause *)

Definition StorageDirectoryError (e : JsError.t) : bool :=
  String.prefix "Failed to create storage directory: " (JsError.message e).

Definition StorageReadError (e : JsError.t) : bool :=
  String.prefix "Failed to read storage file: " (JsError.message e).

Definition StorageWriteError (e : JsError.t) : bool :=
  String.prefix "Failed to write storage file: " (JsError.message e).

(** ** Vocabulary of the statements *)

(** The store holds the collection [l]: reading it succeeds with [l]. *)
Definition holds (w : World) (l : list Snippet.t) : Prop :=
  StorageService.readJSONFile w = (Fulfilled l, w).

(** The file system accepts [mkdir] and [writeFile]. *)
Definition writable (w : World) : Prop :=
  mkdirFault w = None /\ writeFault w = None.

(** The world once [data] has been persisted: the file holds its JSON text
    and the journal records the two calls of [writeJSONFile]. *)
Definition persisted (w : World) (data : list Snippet.t) : World :=
  mkWorld (Holds (JSON_stringify data)) (mkdirFault w) (writeFault w)
          (uuidSource w) (uuidDrawn w) (clockSource w) (clockRead w)
          (journal w ++ [Mkdir; WriteFile (JSON_stringify data)])
          (uuidDistinct w).

(** The world after [n] more readings of the clock. *)
Definition ticked (n : nat) (w : World) : World :=
  mkWorld (node w) (mkdirFault w) (writeFault w)
          (uuidSource w) (uuidDrawn w) (clockSource w) (n + clockRead w)
          (journal w) (uuidDistinct w).

(** The world after one more identifier has been drawn. *)
Definition drawn (w : World) : World :=
  mkWorld (node w) (mkdirFault w) (writeFault w)
          (uuidSource w) (S (uuidDrawn w)) (clockSource w) (clockRead w)
          (journal w) (uuidDistinct w).

(** The identifier that the next call of [uuidv4()] returns, and the
    reading that the [k]-th next [new Date()] takes. *)
Definition nextUuid (w : World) : UUID := uuidSource w (uuidDrawn w).
Definition reading (w : World) (k : nat) : Z :=
  clockSource w (k + clockRead w).

Definition hasId (id : UUID) (s : Snippet.t) : bool :=
  String.eqb (Snippet.id s) id.

(** Criteria objects built from a given one. *)
Definition withQuery (q : option string) (f : SnippetFilter.t)
  : SnippetFilter.t :=
  SnippetFilter.make q (SnippetFilter.language f) (SnippetFilter.category f)
    (SnippetFilter.tags f) (SnippetFilter.favorite f)
    (SnippetFilter.sortBy f) (SnippetFilter.sortOrder f).

Definition withTags (ts : option (list string)) (f : SnippetFilter.t)
  : SnippetFilter.t :=
  SnippetFilter.make (SnippetFilter.query f) (SnippetFilter.language f)
    (SnippetFilter.category f) ts (SnippetFilter.favorite f)
    (SnippetFilter.sortBy f) (SnippetFilter.sortOrder f).

Definition sortedBy (field : SnippetSortField) (order : SortOrder)
  : SnippetFilter.t :=
  SnippetFilter.make None None None None None (Some field) (Some order).

(** A snippet and a criterion's tag sequence have a tag in common. *)
Definition sharesTag (ts : list string) (s : Snippet.t) : Prop :=
  exists t, In t ts /\ In t (Snippet.tags s).

(** The list without its first element that satisfies [p]. *)
Fixpoint removeFirst {A : Type} (p : A -> bool) (l : list A) : list A :=
  match l with
  | [] => []
  | x :: l' => if p x then l' else x :: removeFirst p l'
  end.

(** The number of elements that satisfy [p]. *)
Definition countIf {A : Type} (p : A -> bool) (l : list A) : nat :=
  List.length (List.filter p l).

(** The comparison [-1], [0] or [1] that an ordering stands for. *)
Definition sign (c : comparison) : Z :=
  match c with
  | Lt => -1
  | Eq => 0
  | Gt => 1
  end.

(** [false < true]. *)
Definition compareBool (a b : bool) : comparison :=
  match a, b with
  | false, true => Lt
  | true, false => Gt
  | _, _ => Eq
  end.

(** Sequential adds, each awaited before the next, collecting the records
    they return. *)
Fixpoint addEach (inputs : list CreateSnippetInput.t)
  : Promise (list Snippet.t) :=
  match inputs with
  | [] => resolve []
  | input :: rest =>
      r <- StorageService.add input ;;
      rs <- addEach rest ;;
      resolve (r :: rs)
  end.

(** The record that [add] builds from an input, the identifier drawn from
    the generator and two readings of the clock. *)
Definition created (input : CreateSnippetInput.t) (id : UUID) (t1 t2 : Z)
  : Snippet.t :=
  Snippet.make (nullish (CreateSnippetInput.id input) id)
    (CreateSnippetInput.title input)
    (CreateSnippetInput.description input)
    (CreateSnippetInput.code input)
    (CreateSnippetInput.language input)
    (CreateSnippetInput.category input)
    (nullish (CreateSnippetInput.tags input) [])
    (DateObject t1) (DateObject t2)
    (nullish (CreateSnippetInput.favorite input) false).

(** The record that [update] builds from the original, the partial input
    and a reading of the clock. *)
Definition updated (orig : Snippet.t) (input : UpdateSnippetInput.t) (t : Z)
  : Snippet.t :=
  Snippet.make
    (Snippet.id orig)
    (nullish (UpdateSnippetInput.title input) (Snippet.title orig))
    (nullish (UpdateSnippetInput.description input) (Snippet.description orig))
    (nullish (UpdateSnippetInput.code input) (Snippet.code orig))
    (nullish (UpdateSnippetInput.language input) (Snippet.language orig))
    (nullish (UpdateSnippetInput.category input) (Snippet.category orig))
    (nullish (UpdateSnippetInput.tags input) (Snippet.tags orig))
    (Snippet.createdAt orig)
    (DateObject t)
    (nullish (UpdateSnippetInput.favorite input) (Snippet.favorite orig)).

(** Sample values. *)
Definition ENOENT : JsError.t :=
  JsError.make "Error" "ENOENT: no such file or directory, open"
               (Some "ENOENT"%string).

(** A generator of identifiers: the count of the draw in decimal behind a
    fixed prefix, so that no two draws agree. *)
Definition sampleUuid (n : nat) : UUID :=
  ("snippet-" ++ NilEmpty.string_of_uint (Nat.to_uint n))%string.

Definition sampleUuid_distinct :
  forall i j : nat, sampleUuid i = sampleUuid j -> i = j.
Proof.
  intros i j H. unfold sampleUuid in H. cbn in H. injection H as H.
  apply (f_equal NilEmpty.uint_of_string) in H.
  rewrite !NilEmpty.usu in H. injection H as H.
  apply (f_equal Nat.of_uint) in H.
  rewrite !DecimalNat.Unsigned.of_to in H. exact H.
Qed.

(** A fresh installation: no file yet, no fault, a clock that advances by
    one millisecond at every reading. *)
Definition freshWorld : World :=
  mkWorld (Rejects ENOENT) None None sampleUuid 0
          (fun n => 1700000000000 + Z.of_nat n) 0 [] sampleUuid_distinct.

Definition sampleInput (title : string) : CreateSnippetInput.t :=
  CreateSnippetInput.make title "Bla bla" "let alpha = 0.1;"
                          "javascript" "config" None None None.

Definition sampleSnippet (id : UUID) (title : string) (tags : list string)
  : Snippet.t :=
  Snippet.make id title "Bla bla" "let alpha = 0.1;" "javascript" "config"
               tags (IsoString 1700000000000) (IsoString 1700000000000)
               false.

Definition storing (l : list Snippet.t) : World :=
  mkWorld (Holds (Serialized l)) None None sampleUuid 0
          (fun n => 1700000000000 + Z.of_nat n) 0 [] sampleUuid_distinct.

(** What the query criterion asks of a snippet, in words: nothing when
    the text is empty; otherwise the case-folded text occurs in the
    case-folded title, description or code. *)
Definition queryAccepts (text : string) (s : Snippet.t) : bool :=
  String.eqb text ""
  || includes (toLowerCase (Snippet.title s)) (toLowerCase text)
  || includes (toLowerCase (Snippet.description s)) (toLowerCase text)
  || includes (toLowerCase (Snippet.code s)) (toLowerCase text).

(** The criteria object [{query: text}]. *)
Definition queryOnly (text : string) : SnippetFilter.t :=
  SnippetFilter.make (Some text) None None None None None None.

Definition taggedSnippets : list Snippet.t :=
  [ sampleSnippet "a-0000" "Logging Middleware" ["a"];
    sampleSnippet "b-0000" "Simple variable" ["b"; "x"];
    sampleSnippet "c-0000" "Persistent Snippet" ["c"] ].

(** Two records that carry one identifier. *)
Definition twinSnippets : list Snippet.t :=
  [ sampleSnippet "dup-0000" "To Be Deleted" [];
    sampleSnippet "dup-0000" "Find Me" [] ].

(** The order that the sort rules describe, field by field: timestamps by
    instant, strings by the lexicographic order of their case-folded
    values, booleans with [false] before [true]. *)
Definition keyCompare (field : SnippetSortField) (a b : Snippet.t)
  : comparison :=
  match field with
  | byCreatedAt =>
      Z.compare (getTime (Snippet.createdAt a)) (getTime (Snippet.createdAt b))
  | byUpdatedAt =>
      Z.compare (getTime (Snippet.updatedAt a)) (getTime (Snippet.updatedAt b))
  | byTitle =>
      String.compare (toLowerCase (Snippet.title a))
                     (toLowerCase (Snippet.title b))
  | byLanguage =>
      String.compare (toLowerCase (Snippet.language a))
                     (toLowerCase (Snippet.language b))
  | byCategory =>
      String.compare (toLowerCase (Snippet.category a))
                     (toLowerCase (Snippet.category b))
  | byFavorite => compareBool (Snippet.favorite a) (Snippet.favorite b)
  end.

(** [s] has the same sort key as [k]: the comparator gives zero. *)
Definition sameKey (sort : SnippetSort.t) (k s : Snippet.t) : bool :=
  StorageService.compareSnippets sort s k =? 0.

(** [a] may come before [b] in the sorted result. *)
Definition inOrder (sort : SnippetSort.t) (a b : Snippet.t) : Prop :=
  StorageService.compareSnippets sort a b <= 0.

(** The store cannot be read: the read fails with a code other than
    [ENOENT], or the text of the file is not JSON. *)
Definition unreadable (w : World) : Prop :=
  match node w with
  | Rejects e => JsError.hasCode e "ENOENT" = false
  | Holds (Garbage _ _) => True
  | Holds (Serialized _) => False
  end.

(** The error behind an unreadable store: what [fs.readFile] or
    [JSON.parse] threw. *)
Definition readCause (w : World) : JsError.t :=
  match node w with
  | Rejects e => e
  | Holds (Garbage _ complaint) => JsError.SyntaxError complaint
  | Holds (Serialized _) => JsError.Error ""
  end.

(** A store whose file holds text that is not JSON. *)
Definition corruptWorld : World :=
  mkWorld (Holds (Garbage "invalid json{{{" "Unexpected token i")) None None
          sampleUuid 0 (fun n => 1700000000000 + Z.of_nat n) 0 []
          sampleUuid_distinct.





(** An input object that carries an identifier of its own. *)
Definition inputWithId (id : UUID) (title : string) : CreateSnippetInput.t :=
  CreateSnippetInput.make title "Bla bla" "let alpha = 0.1;"
                          "javascript" "config" None None (Some id).

Definition emptyUpdate : UpdateSnippetInput.t :=
  UpdateSnippetInput.make None None None None None None None.

(** Both timestamps of the record are strings, as in a record read from
    the file. *)
Definition serialized (s : Snippet.t) : Prop :=
  (exists t, Snippet.createdAt s = IsoString t)
  /\ (exists t, Snippet.updatedAt s = IsoString t).

(** [sub] occurs in [s]: some text before, [sub], some text after. *)
Definition occursIn (sub s : string) : Prop :=
  exists pre post, s = (pre ++ sub ++ post)%string.

(** What a criteria object asks of a snippet, criterion by criterion; a
    criterion that is absent, or present but skipped by the code (empty
    text, empty tag sequence), asks nothing. *)
Definition satisfies (f : SnippetFilter.t) (s : Snippet.t) : Prop :=
  match SnippetFilter.query f with
  | Some q =>
      q = ""
      \/ occursIn (toLowerCase q) (toLowerCase (Snippet.title s))
      \/ occursIn (toLowerCase q) (toLowerCase (Snippet.description s))
      \/ occursIn (toLowerCase q) (toLowerCase (Snippet.code s))
  | None => True
  end
  /\ match SnippetFilter.language f with
     | Some x => x = "" \/ Snippet.language s = x
     | None => True
     end
  /\ match SnippetFilter.category f with
     | Some x => x = "" \/ Snippet.category s = x
     | None => True
     end
  /\ match SnippetFilter.tags f with
     | Some ts => ts = [] \/ sharesTag ts s
     | None => True
     end
  /\ match SnippetFilter.favorite f with
     | Some b => Snippet.favorite s = b
     | None => True
     end.

(** The strings of the list are pairwise different. *)
Fixpoint distinct (l : list string) : bool :=
  match l with
  | [] => true
  | x :: l' => negb (Array_includes l' x) && distinct l'
  end.

(** The criteria object [{language: x}] and [{category: x}]. *)
Definition languageOnly (x : SnippetLanguage) : SnippetFilter.t :=
  SnippetFilter.make None (Some x) None None None None None.

Definition categoryOnly (x : SnippetCategory) : SnippetFilter.t :=
  SnippetFilter.make None None (Some x) None None None None.

(** The input object carries no identifier of its own: it has the fields
    that the interface declares, and no [id]. *)
Definition declaredOnly (input : CreateSnippetInput.t) : Prop :=
  CreateSnippetInput.id input = None.


(** * Properties *)

(** ** Reading and writing the file *)

Lemma readJSONFile_leaves_world (w : World) :
  snd (StorageService.readJSONFile w) = w.
Proof.
  unfold StorageService.readJSONFile, tryCatch, await, fs_readFile.
  destruct (node w) as [e | [raw complaint | doc]]; cbn.
  - destruct (JsError.hasCode e "ENOENT"); reflexivity.
  - reflexivity.
  - reflexivity.
Qed.



Lemma holds_serialized (w : World) (doc : list Snippet.t) :
  node w = Holds (Serialized doc) -> holds w doc.
Proof.
  intros Hnode. unfold holds, StorageService.readJSONFile, tryCatch, await,
    fs_readFile.
  rewrite Hnode. reflexivity.
Qed.

Lemma holds_absent (w : World) (e : JsError.t) :
  node w = Rejects e -> JsError.hasCode e "ENOENT" = true -> holds w [].
Proof.
  intros Hnode Hcode. unfold holds, StorageService.readJSONFile, tryCatch,
    await, fs_readFile.
  rewrite Hnode, Hcode. reflexivity.
Qed.

Lemma holds_functional (w : World) (l l' : list Snippet.t) :
  holds w l -> holds w l' -> l = l'.
Proof. unfold holds. congruence. Qed.

Lemma writeJSONFile_writable (w : World) (data : list Snippet.t) :
  writable w ->
  StorageService.writeJSONFile data w = (Fulfilled tt, persisted w data).
Proof.
  intros [Hmk Hwr].
  unfold StorageService.writeJSONFile, StorageService.ensureStoragePath,
    await, tryCatch, fs_mkdir, fs_writeFile, persisted.
  rewrite Hmk. cbn. rewrite Hwr. cbn.
  rewrite <- app_assoc. reflexivity.
Qed.

Lemma holds_persisted (w : World) (data : list Snippet.t) :
  holds (persisted w data) (map Snippet.toJSON data).
Proof. apply holds_serialized. reflexivity. Qed.

Lemma writable_persisted (w : World) (data : list Snippet.t) :
  writable w -> writable (persisted w data).
Proof. intros H. exact H. Qed.

Lemma add_run (w : World) (l : list Snippet.t) (input : CreateSnippetInput.t) :
  holds w l -> writable w ->
  let r := created input (nextUuid w) (reading w 0) (reading w 1) in
  StorageService.add input w
  = (Fulfilled r, persisted (ticked 2 (drawn w)) (l ++ [r])).
Proof.
  intros Hl Hw r.
  unfold StorageService.add, await at 1.
  rewrite Hl.
  unfold await at 1, uuidv4.
  unfold await at 1, newDate. cbn [clockSource clockRead].
  unfold await at 1. cbn [clockSource clockRead].
  unfold await.
  rewrite writeJSONFile_writable by exact Hw.
  reflexivity.
Qed.

(** ** Reading a store that has no file, or a corrupt one *)

(** C6.  [getAll] on a store whose file does not exist (the read fails with
    code [ENOENT]) fulfils with the empty sequence and touches nothing;
    on a file whose text is not JSON it rejects with the read failure of
    the service, so that no data, empty or partial, is returned. *)
Theorem getAll_absent_or_corrupt :
  (forall (w : World) (e : JsError.t),
      node w = Rejects e ->
      JsError.code e = Some "ENOENT" ->
      StorageService.getAll w = (Fulfilled [], w))
  /\
  (forall (w : World) (raw complaint : string),
      node w = Holds (Garbage raw complaint) ->
      exists e,
        StorageService.getAll w = (Rejected e, w)
        /\ StorageReadError e = true
        /\ forall data, fst (StorageService.getAll w) <> Fulfilled data).
Proof.
  split.
  - intros w e Hnode Hcode.
    apply (holds_absent w e Hnode).
    unfold JsError.hasCode. rewrite Hcode. reflexivity.
  - intros w raw complaint Hnode.
    unfold StorageService.getAll, StorageService.readJSONFile, tryCatch,
      await, fs_readFile.
    rewrite Hnode. cbn.
    eexists. split; [reflexivity |]. split; [reflexivity |].
    intros data. discriminate.
Qed.

Lemma getAll_absent_or_corrupt_witness :
  StorageService.getAll freshWorld = (Fulfilled [], freshWorld)
  /\ exists e,
      StorageService.getAll
        (mkWorld (Holds (Garbage "invalid json{{{" "Unexpected token i"))
                 None None sampleUuid 0 (fun _ => 0) 0 []
                 sampleUuid_distinct)
      = (Rejected e,
         mkWorld (Holds (Garbage "invalid json{{{" "Unexpected token i"))
                 None None sampleUuid 0 (fun _ => 0) 0 []
                 sampleUuid_distinct)
      /\ StorageReadError e = true.
Proof.
  split.
  - apply (proj1 getAll_absent_or_corrupt freshWorld ENOENT); reflexivity.
  - destruct (proj2 getAll_absent_or_corrupt
                (mkWorld (Holds (Garbage "invalid json{{{" "Unexpected token i"))
                         None None sampleUuid 0 (fun _ => 0) 0 []
                 sampleUuid_distinct)
                "invalid json{{{" "Unexpected token i" eq_refl)
      as [e [Hrun [Hkind _]]].
    exists e. split; [exact Hrun | exact Hkind].
Defined.

(** ** Filtering *)

Lemma filter_run (w : World) (l : list Snippet.t) (f : SnippetFilter.t) :
  holds w l ->
  StorageService.filter (Some f) w
  = (Fulfilled
       (match SnippetFilter.sortBy f with
        | Some sortBy =>
            StorageService.sortSnippets
              (List.filter (StorageService.matches f) l)
              (SnippetSort.make sortBy
                 (nullish (SnippetFilter.sortOrder f) asc))
        | None => List.filter (StorageService.matches f) l
        end), w).
Proof.
  intros Hl. unfold StorageService.filter, await. cbn [nullish].
  rewrite Hl. reflexivity.
Qed.

(** Two criteria objects that accept the same snippets and sort alike
    give the same answer, whatever the state of the store. *)
Lemma filter_ext (f g : SnippetFilter.t) (w : World) :
  (forall s, StorageService.matches f s = StorageService.matches g s) ->
  SnippetFilter.sortBy f = SnippetFilter.sortBy g ->
  SnippetFilter.sortOrder f = SnippetFilter.sortOrder g ->
  StorageService.filter (Some f) w = StorageService.filter (Some g) w.
Proof.
  intros Hm Hby Hord.
  unfold StorageService.filter, await. cbn [nullish].
  destruct (StorageService.readJSONFile w) as [[l | e] w']; [| reflexivity].
  rewrite Hby, Hord.
  rewrite (List.filter_ext _ _ Hm).
  reflexivity.
Qed.

Lemma matches_empty (s : Snippet.t) :
  StorageService.matches SnippetFilter.empty s = true.
Proof. reflexivity. Qed.

Lemma filter_empty_run (w : World) :
  StorageService.filter (Some SnippetFilter.empty) w = StorageService.getAll w.
Proof.
  unfold StorageService.filter, StorageService.getAll, await.
  cbn [nullish SnippetFilter.sortBy SnippetFilter.empty].
  destruct (StorageService.readJSONFile w) as [[l | e] w']; [| reflexivity].
  rewrite (List.filter_ext _ (fun _ => true) matches_empty).
  rewrite List.filter_true. reflexivity.
Qed.

(** C9.  [filter] with the empty criteria object, or with no argument at
    all, is [getAll]: the whole collection in file order. *)
Theorem filter_empty_is_getAll :
  forall w : World,
    StorageService.filter (Some SnippetFilter.empty) w = StorageService.getAll w
    /\ StorageService.filter None w = StorageService.getAll w.
Proof.
  intros w. split.
  - apply filter_empty_run.
  - exact (filter_empty_run w).
Qed.

Lemma matches_query_empty (f : SnippetFilter.t) (s : Snippet.t) :
  StorageService.matches (withQuery (Some "") f) s
  = StorageService.matches (withQuery None f) s.
Proof. reflexivity. Qed.

(** C10.  An empty-string query is no query: [filter] answers as it does
    when the field is left out, and [search("")] answers as [getAll]. *)
Theorem filter_empty_query :
  forall (w : World) (f : SnippetFilter.t),
    StorageService.filter (Some (withQuery (Some "") f)) w
    = StorageService.filter (Some (withQuery None f)) w
    /\ StorageService.search "" w = StorageService.getAll w.
Proof.
  intros w f. split.
  - apply filter_ext; [apply matches_query_empty | reflexivity | reflexivity].
  - unfold StorageService.search.
    rewrite <- (filter_empty_run w).
    apply filter_ext; reflexivity.
Qed.

Lemma matches_queryOnly (text : string) (s : Snippet.t) :
  StorageService.matches (queryOnly text) s = queryAccepts text s.
Proof.
  unfold StorageService.matches, queryOnly, queryAccepts, truthy. cbn.
  destruct (String.eqb text ""); cbn; [reflexivity |].
  destruct (includes (toLowerCase (Snippet.title s)) (toLowerCase text)
            || includes (toLowerCase (Snippet.description s))
                        (toLowerCase text)
            || includes (toLowerCase (Snippet.code s)) (toLowerCase text));
    reflexivity.
Qed.

(** C3.  [search(text)] is [filter({query: text})], for every text and
    every state of the store: the same settled result and the same world.
    Both answer with the records of the collection, in file order, that
    the query accepts. *)
Theorem search_is_filter_query :
  forall (text : string) (w : World),
    StorageService.search text w
    = StorageService.filter (Some (queryOnly text)) w
    /\ StorageService.filter (Some (queryOnly text)) w
       = (snippets <- StorageService.getAll ;;
          resolve (List.filter (queryAccepts text) snippets)) w.
Proof.
  intros text w. split.
  - reflexivity.
  - unfold StorageService.filter, StorageService.getAll, await.
    cbn [nullish SnippetFilter.sortBy queryOnly].
    destruct (StorageService.readJSONFile w) as [[l | e] w']; [| reflexivity].
    rewrite (List.filter_ext _ _ (matches_queryOnly text)).
    reflexivity.
Qed.

(** ** Sorting: the result is a rearrangement *)

Section ArraySortFacts.
Context {A : Type} (cmp : A -> A -> Z).

Lemma sortInsert_perm (x : A) (l : list A) :
  Permutation (sortInsert cmp x l) (x :: l).
Proof.
  induction l as [| y l IH]; cbn.
  - apply Permutation_refl.
  - destruct (cmp x y <=? 0).
    + apply Permutation_refl.
    + apply Permutation_trans with (y :: x :: l).
      * apply perm_skip. exact IH.
      * apply perm_swap.
Qed.

Lemma Array_sort_perm (l : list A) : Permutation (Array_sort cmp l) l.
Proof.
  induction l as [| x l IH]; cbn.
  - apply perm_nil.
  - apply Permutation_trans with (x :: Array_sort cmp l).
    + apply sortInsert_perm.
    + apply perm_skip. exact IH.
Qed.

Lemma Array_sort_In (l : list A) (x : A) :
  In x (Array_sort cmp l) <-> In x l.
Proof.
  split; apply Permutation_in.
  - apply Array_sort_perm.
  - apply Permutation_sym, Array_sort_perm.
Qed.
End ArraySortFacts.

(** ** The tags criterion *)

Lemma Array_includes_In (l : list string) (x : string) :
  Array_includes l x = true <-> In x l.
Proof.
  unfold Array_includes. rewrite existsb_exists. split.
  - intros [y [Hin Heq]]. apply String.eqb_eq in Heq. subst y. exact Hin.
  - intros Hin. exists x. split; [exact Hin | apply String.eqb_refl].
Qed.

Lemma hasMatchingTag_shares (ts : list string) (s : Snippet.t) :
  existsb (fun tag => Array_includes (Snippet.tags s) tag) ts = true
  <-> sharesTag ts s.
Proof.
  unfold sharesTag. rewrite existsb_exists.
  split; intros [t [Hin H]]; exists t; (split; [exact Hin |]);
    apply Array_includes_In; exact H.
Qed.

Lemma matches_withTags (ts : list string) (f : SnippetFilter.t)
      (s : Snippet.t) :
  ts <> [] ->
  StorageService.matches (withTags (Some ts) f) s
  = StorageService.matches (withTags None f) s
    && existsb (fun tag => Array_includes (Snippet.tags s) tag) ts.
Proof.
  intros Hne. destruct ts as [| t ts]; [contradiction |].
  unfold StorageService.matches, withTags.
  cbn [SnippetFilter.query SnippetFilter.language SnippetFilter.category
       SnippetFilter.tags SnippetFilter.favorite List.length Nat.ltb Nat.leb].
  set (hasTag := existsb _ (t :: ts)).
  destruct (match SnippetFilter.query f with Some _ => _ | None => _ end);
    [reflexivity |].
  destruct (match SnippetFilter.language f with Some _ => _ | None => _ end);
    [reflexivity |].
  destruct (match SnippetFilter.category f with Some _ => _ | None => _ end);
    [reflexivity |].
  destruct hasTag; cbn.
  - destruct (match SnippetFilter.favorite f with Some _ => _ | None => _ end);
      reflexivity.
  - destruct (match SnippetFilter.favorite f with Some _ => _ | None => _ end);
      reflexivity.
Qed.

Lemma matches_withTags_nil (f : SnippetFilter.t) (s : Snippet.t) :
  StorageService.matches (withTags (Some []) f) s
  = StorageService.matches (withTags None f) s.
Proof. reflexivity. Qed.

Lemma filter_In_result (w : World) (l : list Snippet.t) (f : SnippetFilter.t) :
  holds w l ->
  exists res,
    StorageService.filter (Some f) w = (Fulfilled res, w)
    /\ forall s, In s res <-> In s l /\ StorageService.matches f s = true.
Proof.
  intros Hl. rewrite (filter_run w l f Hl).
  eexists. split; [reflexivity |].
  intros s. destruct (SnippetFilter.sortBy f) as [sortBy |].
  - unfold StorageService.sortSnippets. rewrite Array_sort_In.
    apply List.filter_In.
  - apply List.filter_In.
Qed.

Lemma prefix_spec (p s : string) :
  String.prefix p s = true <-> exists post, s = (p ++ post)%string.
Proof.
  revert s. induction p as [| a p IH]; intros s.
  - split; [intros _; exists s; reflexivity |].
    intros _. destruct s; reflexivity.
  - destruct s as [| b s]; cbn.
    + split; [discriminate | intros [post H]; discriminate H].
    + destruct (ascii_dec a b) as [<- | Hne].
      * rewrite IH. split; intros [post H]; exists post.
        -- rewrite H. reflexivity.
        -- injection H as H. exact H.
      * split; [discriminate |]. intros [post H]. injection H as Hab _.
        congruence.
Qed.

Lemma includes_spec (s sub : string) :
  includes s sub = true <-> occursIn sub s.
Proof.
  unfold occursIn. induction s as [| c s IH]; cbn [includes].
  - rewrite orb_false_r, prefix_spec. split.
    + intros [post H]. exists "", post. exact H.
    + intros [pre [post H]]. destruct pre; [| discriminate H].
      exists post. exact H.
  - rewrite orb_true_iff, prefix_spec, IH. split.
    + intros [[post H] | [pre [post H]]].
      * exists "", post. exact H.
      * exists (String c pre), post. rewrite H. reflexivity.
    + intros [[| c' pre] [post H]].
      * left. exists post. exact H.
      * right. exists pre, post. cbn in H. injection H as _ H. exact H.
Qed.

Lemma truthy_spec (s : string) : truthy s = false <-> s = "".
Proof.
  unfold truthy. rewrite negb_false_iff. apply String.eqb_eq.
Qed.

Lemma truthy_true (s : string) : truthy s = true <-> s <> "".
Proof.
  unfold truthy. rewrite negb_true_iff. apply String.eqb_neq.
Qed.

Lemma exact_criterion (x v : string) :
  truthy x && negb (String.eqb v x) = false <-> (x = "" \/ v = x).
Proof.
  rewrite andb_false_iff, truthy_spec, negb_false_iff, String.eqb_eq.
  tauto.
Qed.

Lemma matches_satisfies (f : SnippetFilter.t) (s : Snippet.t) :
  StorageService.matches f s = true <-> satisfies f s.
Proof.
  destruct f as [q la ca tg fa sb so].
  unfold StorageService.matches, satisfies.
  cbn [SnippetFilter.query SnippetFilter.language SnippetFilter.category
       SnippetFilter.tags SnippetFilter.favorite].
  assert (Hq : match q with
               | Some query =>
                   if truthy query
                   then negb (includes (toLowerCase (Snippet.title s))
                                       (toLowerCase query)
                              || includes (toLowerCase (Snippet.description s))
                                          (toLowerCase query)
                              || includes (toLowerCase (Snippet.code s))
                                          (toLowerCase query))
                   else false
               | None => false
               end = false
               <-> match q with
                   | Some q =>
                       q = ""
                       \/ occursIn (toLowerCase q)
                                   (toLowerCase (Snippet.title s))
                       \/ occursIn (toLowerCase q)
                                   (toLowerCase (Snippet.description s))
                       \/ occursIn (toLowerCase q)
                                   (toLowerCase (Snippet.code s))
                   | None => True
                   end).
  { destruct q as [q |]; [| tauto].
    rewrite <- !includes_spec. destruct (truthy q) eqn:Ht.
    - apply truthy_true in Ht.
      rewrite negb_false_iff, !orb_true_iff. tauto.
    - apply truthy_spec in Ht. tauto. }
  assert (Hla : match la with
                | Some language =>
                    truthy language
                    && negb (String.eqb (Snippet.language s) language)
                | None => false
                end = false
                <-> match la with
                    | Some x => x = "" \/ Snippet.language s = x
                    | None => True
                    end).
  { destruct la as [x |]; [apply exact_criterion | tauto]. }
  assert (Hca : match ca with
                | Some category =>
                    truthy category
                    && negb (String.eqb (Snippet.category s) category)
                | None => false
                end = false
                <-> match ca with
                    | Some x => x = "" \/ Snippet.category s = x
                    | None => True
                    end).
  { destruct ca as [x |]; [apply exact_criterion | tauto]. }
  assert (Htg : match tg with
                | Some tags =>
                    if (0 <? List.length tags)%nat
                    then negb (existsb
                                 (fun tag =>
                                    Array_includes (Snippet.tags s) tag) tags)
                    else false
                | None => false
                end = false
                <-> match tg with
                    | Some ts => ts = [] \/ sharesTag ts s
                    | None => True
                    end).
  { destruct tg as [ts |]; [| tauto].
    rewrite <- hasMatchingTag_shares. destruct ts as [| t ts].
    - cbn. tauto.
    - cbn [List.length Nat.ltb Nat.leb]. rewrite negb_false_iff.
      split; [intros H; right; exact H | intros [H | H]; [discriminate | exact H]]. }
  assert (Hfa : match fa with
                | Some favorite =>
                    negb (Bool.eqb (Snippet.favorite s) favorite)
                | None => false
                end = false
                <-> match fa with
                    | Some b => Snippet.favorite s = b
                    | None => True
                    end).
  { destruct fa as [b |]; [| tauto].
    rewrite negb_false_iff. apply Bool.eqb_true_iff. }
  rewrite <- Hq, <- Hla, <- Hca, <- Htg, <- Hfa.
  destruct (match q with Some _ => _ | None => _ end);
    destruct (match la with Some _ => _ | None => _ end);
    destruct (match ca with Some _ => _ | None => _ end);
    destruct (match tg with Some _ => _ | None => _ end);
    destruct (match fa with Some _ => _ | None => _ end);
    intuition congruence.
Qed.

(** C4.  With a non-empty tags criterion, a snippet is in the answer of
    [filter] exactly when it is in the collection, passes the other
    criteria and has at least one tag in common with the sequence: any
    one of the listed tags is enough.  With an empty tags sequence the
    answer is the one given when [tags] is left out: the records of the
    collection that pass the other criteria.  With [tags] as the only
    criterion the answer is, in file order, the records that share a tag
    with the sequence, and the whole collection when the sequence is
    empty. *)
Theorem filter_tags_any_of :
  forall (w : World) (l : list Snippet.t) (f : SnippetFilter.t),
    holds w l ->
    (forall ts : list string,
        ts <> [] ->
        exists res,
          StorageService.filter (Some (withTags (Some ts) f)) w
          = (Fulfilled res, w)
          /\ forall s,
              In s res
              <-> In s l /\ satisfies (withTags None f) s /\ sharesTag ts s)
    /\ (exists res,
           StorageService.filter (Some (withTags (Some []) f)) w
           = (Fulfilled res, w)
           /\ StorageService.filter (Some (withTags None f)) w
              = (Fulfilled res, w)
           /\ forall s, In s res <-> In s l /\ satisfies (withTags None f) s)
    /\ (forall ts : list string,
           ts <> [] ->
           exists res,
             StorageService.filter
               (Some (withTags (Some ts) SnippetFilter.empty)) w
             = (Fulfilled res, w)
             /\ res
                = List.filter
                    (fun s =>
                       existsb (fun tag => Array_includes (Snippet.tags s) tag)
                               ts) l
             /\ forall s, In s res <-> In s l /\ sharesTag ts s)
    /\ StorageService.filter (Some (withTags (Some []) SnippetFilter.empty)) w
       = (Fulfilled l, w).
Proof.
  intros w l f Hl.
  assert (Hsome : forall ts g s,
             ts <> [] ->
             satisfies (withTags (Some ts) g) s
             <-> satisfies (withTags None g) s /\ sharesTag ts s).
  { intros ts g s Hne. unfold satisfies, withTags.
    cbn [SnippetFilter.query SnippetFilter.language SnippetFilter.category
         SnippetFilter.tags SnippetFilter.favorite].
    tauto. }
  split; [| split; [| split]].
  - intros ts Hne.
    destruct (filter_In_result w l (withTags (Some ts) f) Hl)
      as [res [Hres Hin]].
    exists res. split; [exact Hres |].
    intros s. rewrite Hin, matches_satisfies, (Hsome ts f s Hne). tauto.
  - destruct (filter_In_result w l (withTags None f) Hl)
      as [res [Hres Hin]].
    exists res. split; [| split; [exact Hres |]].
    + rewrite <- Hres.
      apply filter_ext; [apply matches_withTags_nil | reflexivity | reflexivity].
    + intros s. rewrite Hin, matches_satisfies. tauto.
  - intros ts Hne. eexists. split; [| split; [reflexivity |]].
    + rewrite (filter_run w l _ Hl). cbn [SnippetFilter.sortBy withTags
                                            SnippetFilter.empty].
      rewrite (List.filter_ext _
                 (fun s =>
                    existsb (fun tag => Array_includes (Snippet.tags s) tag)
                            ts)); [reflexivity |].
      intros s. rewrite (matches_withTags ts SnippetFilter.empty s Hne).
      reflexivity.
    + intros s. rewrite List.filter_In, hasMatchingTag_shares. tauto.
  - rewrite (filter_run w l _ Hl). cbn [SnippetFilter.sortBy withTags
                                          SnippetFilter.empty].
    rewrite (List.filter_ext _ (fun _ => true)) by reflexivity.
    rewrite List.filter_true. reflexivity.
Qed.

Lemma filter_tags_any_of_witness :
  holds (storing taggedSnippets) taggedSnippets
  /\ StorageService.filter
       (Some (withTags (Some ["a"; "b"]) SnippetFilter.empty))
       (storing taggedSnippets)
     = (Fulfilled [sampleSnippet "a-0000" "Logging Middleware" ["a"];
                   sampleSnippet "b-0000" "Simple variable" ["b"; "x"]],
        storing taggedSnippets)
  /\ StorageService.filter
       (Some (withTags (Some []) SnippetFilter.empty))
       (storing taggedSnippets)
     = (Fulfilled taggedSnippets, storing taggedSnippets).
Proof.
  split; [reflexivity |].
  pose proof (filter_tags_any_of (storing taggedSnippets) taggedSnippets
                SnippetFilter.empty eq_refl) as [_ [_ [Hany Hnone]]].
  split; [| exact Hnone].
  destruct (Hany ["a"; "b"]) as [res [Hrun [Heq _]]]; [discriminate |].
  rewrite Heq in Hrun. exact Hrun.
Defined.

(** ** Deleting *)

Lemma filter_complement_length {A : Type} (p : A -> bool) (l : list A) :
  (List.length (List.filter (fun x => negb (p x)) l) + countIf p l
   = List.length l)%nat.
Proof.
  unfold countIf. induction l as [| x l IH]; cbn.
  - reflexivity.
  - destruct (p x); cbn; lia.
Qed.

Lemma countIf_zero {A : Type} (p : A -> bool) (l : list A) :
  (forall x, In x l -> p x = false) -> countIf p l = 0%nat.
Proof.
  unfold countIf. induction l as [| x l IH]; cbn; intros Hall.
  - reflexivity.
  - rewrite (Hall x) by (left; reflexivity).
    apply IH. intros y Hy. apply Hall. right. exact Hy.
Qed.

Lemma countIf_positive {A : Type} (p : A -> bool) (l : list A) (x : A) :
  In x l -> p x = true -> (1 <= countIf p l)%nat.
Proof.
  unfold countIf. intros Hin Hp.
  assert (Hf : In x (List.filter p l)) by (apply List.filter_In; tauto).
  destruct (List.filter p l); [contradiction | cbn; lia].
Qed.

Lemma filter_none_rejected {A : Type} (p : A -> bool) (l : list A) :
  (forall x, In x l -> p x = false) ->
  List.filter (fun x => negb (p x)) l = l.
Proof.
  induction l as [| x l IH]; cbn; intros Hall.
  - reflexivity.
  - rewrite (Hall x) by (left; reflexivity). cbn. f_equal.
    apply IH. intros y Hy. apply Hall. right. exact Hy.
Qed.

Lemma hasId_true (id : UUID) (s : Snippet.t) :
  hasId id s = true <-> Snippet.id s = id.
Proof. unfold hasId. apply String.eqb_eq. Qed.

Lemma hasId_false (id : UUID) (s : Snippet.t) :
  hasId id s = false <-> Snippet.id s <> id.
Proof. unfold hasId. apply String.eqb_neq. Qed.

(** When identifiers are unique, dropping every match drops the first
    match and nothing else. *)
Lemma filter_unique_removeFirst (id : UUID) (l : list Snippet.t) :
  NoDup (map Snippet.id l) ->
  List.filter (fun s => negb (hasId id s)) l = removeFirst (hasId id) l.
Proof.
  induction l as [| x l IH]; cbn; intros Hnd.
  - reflexivity.
  - inversion Hnd as [| ? ? Hnotin Hnd']; subst.
    destruct (hasId id x) eqn:Hx; cbn.
    + apply filter_none_rejected. intros y Hy.
      apply hasId_false. apply hasId_true in Hx. intros Hyid.
      apply Hnotin. rewrite Hx, <- Hyid. apply in_map. exact Hy.
    + f_equal. apply IH. exact Hnd'.
Qed.

Lemma delete_run (w : World) (l : list Snippet.t) (id : UUID) :
  holds w l ->
  StorageService.delete id w
  = (let filtered := List.filter (fun s => negb (hasId id s)) l in
     if negb (Nat.eqb (List.length filtered) (List.length l))
     then (StorageService.writeJSONFile filtered ;;; resolve true) w
     else (Fulfilled false, w)).
Proof.
  intros Hl. unfold StorageService.delete, await at 1. rewrite Hl.
  cbv zeta. fold (hasId id).
  change (fun snippet : Snippet.t => negb (Snippet.id snippet =? id)%string)
    with (fun s => negb (hasId id s)).
  destruct (negb _); reflexivity.
Qed.

(** C5, as the code has it.  When no record carries the identifier,
    [delete] answers [false] and leaves the world as it was: nothing is
    written.  When some record carries it, [delete] answers [true] and
    persists the collection without every record that carries it; the
    length drops by the number of those records, which is at least one;
    and when identifiers are unique in the collection that is the removal
    of the first match alone, and the length drops by exactly one. *)
Theorem delete_removes_matches :
  forall (w : World) (l : list Snippet.t) (id : UUID),
    holds w l ->
    let kept := List.filter (fun s => negb (hasId id s)) l in
    ((forall s, In s l -> Snippet.id s <> id) ->
     StorageService.delete id w = (Fulfilled false, w))
    /\
    ((exists s, In s l /\ Snippet.id s = id) ->
     writable w ->
     StorageService.delete id w = (Fulfilled true, persisted w kept)
     /\ holds (persisted w kept) (map Snippet.toJSON kept)
     /\ (forall s, In s kept <-> In s l /\ Snippet.id s <> id)
     /\ (List.length kept + countIf (hasId id) l = List.length l)%nat
     /\ (1 <= countIf (hasId id) l)%nat
     /\ (NoDup (map Snippet.id l) ->
         kept = removeFirst (hasId id) l
         /\ S (List.length kept) = List.length l)).
Proof.
  intros w l id Hl kept.
  pose proof (filter_complement_length (hasId id) l) as Hlen.
  fold kept in Hlen.
  split.
  - intros Hnone.
    rewrite (delete_run w l id Hl). cbv zeta. fold kept.
    assert (Hkept : kept = l).
    { apply filter_none_rejected. intros s Hs. apply hasId_false.
      apply Hnone. exact Hs. }
    rewrite Hkept, Nat.eqb_refl. reflexivity.
  - intros [s [Hin Hid]] Hw.
    assert (Hpos : (1 <= countIf (hasId id) l)%nat).
    { apply (countIf_positive _ l s Hin). apply hasId_true. exact Hid. }
    split; [| split; [| split; [| split; [| split]]]].
    + rewrite (delete_run w l id Hl). cbv zeta. fold kept.
      assert (Hne : Nat.eqb (List.length kept) (List.length l) = false)
        by (apply Nat.eqb_neq; lia).
      rewrite Hne. cbn [negb]. unfold await.
      rewrite (writeJSONFile_writable w kept Hw). reflexivity.
    + apply holds_persisted.
    + intros s'. unfold kept. rewrite List.filter_In, negb_true_iff.
      rewrite hasId_false. tauto.
    + exact Hlen.
    + exact Hpos.
    + intros Hnd.
      assert (Hone : countIf (hasId id) l = 1%nat).
      { clear - Hnd Hpos. unfold countIf in *.
        induction l as [| x l IH]; cbn in *; [lia |].
        inversion Hnd as [| ? ? Hnotin Hnd']; subst.
        destruct (hasId id x) eqn:Hx; cbn in *.
        - f_equal. change (countIf (hasId id) l = 0%nat).
          apply countIf_zero. intros y Hy. apply hasId_false.
          apply hasId_true in Hx. intros Hyid. apply Hnotin.
          rewrite Hx, <- Hyid. apply in_map. exact Hy.
        - apply IH; assumption. }
      split; [apply filter_unique_removeFirst; exact Hnd | lia].
Qed.

Lemma delete_removes_matches_witness :
  holds (storing taggedSnippets) taggedSnippets
  /\ StorageService.delete "zzz" (storing taggedSnippets)
     = (Fulfilled false, storing taggedSnippets)
  /\ StorageService.delete "b-0000" (storing taggedSnippets)
     = (Fulfilled true,
        persisted (storing taggedSnippets)
          (List.filter (fun s => negb (hasId "b-0000" s)) taggedSnippets)).
Proof.
  split; [reflexivity |]. split.
  - apply (proj1 (delete_removes_matches (storing taggedSnippets)
                    taggedSnippets "zzz" eq_refl)).
    intros s [H | [H | [H | []]]]; subst s; discriminate.
  - apply (proj2 (delete_removes_matches (storing taggedSnippets)
                    taggedSnippets "b-0000" eq_refl)).
    + exists (sampleSnippet "b-0000" "Simple variable" ["b"; "x"]).
      split; [right; left; reflexivity | reflexivity].
    + split; reflexivity.
Defined.

(** C5 as stated fails on a collection in which two records carry the
    identifier: both go, the length drops from two to zero, and what is
    left is not the collection without its first match. *)
Lemma delete_twins_drops_two :
  holds (storing twinSnippets) twinSnippets
  /\ List.length twinSnippets = 2%nat
  /\ exists w',
      StorageService.delete "dup-0000" (storing twinSnippets)
      = (Fulfilled true, w')
      /\ holds w' []
      /\ ~ holds w' (removeFirst (hasId "dup-0000") twinSnippets).
Proof.
  split; [reflexivity |]. split; [reflexivity |].
  exists (persisted (storing twinSnippets) []).
  split; [reflexivity |]. split; [reflexivity |].
  intros H.
  apply (holds_functional _ _ _ (holds_persisted (storing twinSnippets) []))
    in H.
  discriminate H.
Qed.

(** ** Locating a record *)

Lemma findIndexFrom_none {A : Type} (p : A -> bool) (l : list A) (k : Z) :
  (forall x, In x l -> p x = false) -> findIndexFrom p l k = -1.
Proof.
  revert k. induction l as [| x l IH]; cbn; intros k Hall.
  - reflexivity.
  - rewrite (Hall x) by (left; reflexivity).
    apply IH. intros y Hy. apply Hall. right. exact Hy.
Qed.

Lemma findIndexFrom_first {A : Type} (p : A -> bool) (pre post : list A)
      (x : A) (k : Z) :
  (forall y, In y pre -> p y = false) -> p x = true ->
  findIndexFrom p (pre ++ x :: post) k = k + Z.of_nat (List.length pre).
Proof.
  revert k. induction pre as [| y pre IH]; cbn [app findIndexFrom List.length];
    intros k Hpre Hx.
  - rewrite Hx. cbn. lia.
  - rewrite (Hpre y) by (left; reflexivity).
    rewrite IH; [lia | | exact Hx].
    intros z Hz. apply Hpre. right. exact Hz.
Qed.

Lemma first_match_split {A : Type} (p : A -> bool) (l : list A) :
  (exists x, In x l /\ p x = true) ->
  exists pre x post,
    l = pre ++ x :: post /\ p x = true /\ forall y, In y pre -> p y = false.
Proof.
  induction l as [| a l IH]; intros [x [Hin Hp]].
  - contradiction.
  - destruct (p a) eqn:Ha.
    + exists [], a, l. split; [reflexivity |]. split; [exact Ha |].
      intros y [].
    + destruct IH as [pre [x' [post [Hl [Hx' Hpre]]]]].
      { destruct Hin as [-> | Hin]; [congruence |]. exists x. tauto. }
      exists (a :: pre), x', post. split; [cbn; f_equal; exact Hl |].
      split; [exact Hx' |].
      intros y [<- | Hy]; [exact Ha | apply Hpre; exact Hy].
Qed.

Lemma setNth_middle {A : Type} (pre post : list A) (x v : A) :
  setNth (pre ++ x :: post) (List.length pre) v = pre ++ v :: post.
Proof.
  induction pre as [| y pre IH]; cbn.
  - reflexivity.
  - f_equal. exact IH.
Qed.

Lemma Array_get_middle {A : Type} (pre post : list A) (x : A) :
  Array_get (pre ++ x :: post) (Z.of_nat (List.length pre)) = Some x.
Proof.
  unfold Array_get.
  assert (H : (Z.of_nat (List.length pre) <? 0) = false) by (apply Z.ltb_ge; lia).
  rewrite H, Nat2Z.id.
  rewrite nth_error_app2 by lia. rewrite Nat.sub_diag. reflexivity.
Qed.

Lemma Array_set_middle {A : Type} (pre post : list A) (x v : A) :
  Array_set (pre ++ x :: post) (Z.of_nat (List.length pre)) v
  = pre ++ v :: post.
Proof.
  unfold Array_set.
  assert (H : (Z.of_nat (List.length pre) <? 0) = false) by (apply Z.ltb_ge; lia).
  rewrite H, Nat2Z.id. apply setNth_middle.
Qed.

Lemma find_none_rejected {A : Type} (p : A -> bool) (l : list A) :
  (forall x, In x l -> p x = false) -> find p l = None.
Proof.
  induction l as [| x l IH]; cbn; intros Hall.
  - reflexivity.
  - rewrite (Hall x) by (left; reflexivity).
    apply IH. intros y Hy. apply Hall. right. exact Hy.
Qed.

Lemma find_first {A : Type} (p : A -> bool) (pre post : list A) (x : A) :
  (forall y, In y pre -> p y = false) -> p x = true ->
  find p (pre ++ x :: post) = Some x.
Proof.
  induction pre as [| y pre IH]; cbn; intros Hpre Hx.
  - rewrite Hx. reflexivity.
  - rewrite (Hpre y) by (left; reflexivity).
    apply IH; [| exact Hx]. intros z Hz. apply Hpre. right. exact Hz.
Qed.

(** ** Updating *)

Lemma update_absent (w : World) (l : list Snippet.t) (id : UUID)
      (input : UpdateSnippetInput.t) :
  holds w l ->
  (forall s, In s l -> Snippet.id s <> id) ->
  StorageService.update id input w = (Fulfilled None, w).
Proof.
  intros Hl Hnone.
  unfold StorageService.update, await at 1. rewrite Hl.
  unfold findIndex. rewrite findIndexFrom_none.
  - reflexivity.
  - intros s Hs. apply String.eqb_neq. apply Hnone. exact Hs.
Qed.

Lemma update_present (w : World) (pre post : list Snippet.t)
      (orig : Snippet.t) (id : UUID) (input : UpdateSnippetInput.t) :
  holds w (pre ++ orig :: post) ->
  writable w ->
  Snippet.id orig = id ->
  (forall s, In s pre -> Snippet.id s <> id) ->
  let u := updated orig input (reading w 0) in
  StorageService.update id input w
  = (Fulfilled (Some u), persisted (ticked 1 w) (pre ++ u :: post)).
Proof.
  intros Hl Hw Hid Hpre u.
  unfold StorageService.update, await at 1. rewrite Hl.
  unfold findIndex. rewrite findIndexFrom_first.
  - cbn [Z.add]. rewrite Array_get_middle.
    assert (Hidx : (Z.of_nat (List.length pre) =? -1) = false)
      by (apply Z.eqb_neq; lia).
    rewrite Hidx.
    unfold await at 1, newDate. unfold await.
    rewrite Array_set_middle.
    rewrite writeJSONFile_writable by exact Hw.
    reflexivity.
  - intros s Hs. apply String.eqb_neq. apply Hpre. exact Hs.
  - apply String.eqb_eq. exact Hid.
Qed.

(** C7.  When no record carries the identifier, [update] fulfils with the
    not-found value and leaves the world as it was.  When one does, the
    first such record [orig] is replaced, at its own position in the
    persisted collection, by a record with the identifier and [createdAt]
    of [orig], with each field of the partial input that is present taken
    from the input and each absent one (the tags among them) kept from
    [orig], and with [updatedAt] a [Date] at the current reading of the
    clock; that record is returned. *)
Theorem update_partial_in_place :
  forall (w : World) (l : list Snippet.t) (id : UUID)
         (input : UpdateSnippetInput.t),
    holds w l ->
    ((forall s, In s l -> Snippet.id s <> id) ->
     StorageService.update id input w = (Fulfilled None, w))
    /\
    ((exists s, In s l /\ Snippet.id s = id) ->
     writable w ->
     exists pre orig post u,
       l = pre ++ orig :: post
       /\ Snippet.id orig = id
       /\ (forall s, In s pre -> Snippet.id s <> id)
       /\ StorageService.update id input w
          = (Fulfilled (Some u), persisted (ticked 1 w) (pre ++ u :: post))
       /\ holds (persisted (ticked 1 w) (pre ++ u :: post))
                (map Snippet.toJSON pre ++ Snippet.toJSON u
                   :: map Snippet.toJSON post)
       /\ Snippet.id u = Snippet.id orig
       /\ Snippet.createdAt u = Snippet.createdAt orig
       /\ Snippet.updatedAt u = DateObject (reading w 0)
       /\ Snippet.title u
          = match UpdateSnippetInput.title input with
            | Some v => v
            | None => Snippet.title orig
            end
       /\ Snippet.description u
          = match UpdateSnippetInput.description input with
            | Some v => v
            | None => Snippet.description orig
            end
       /\ Snippet.code u
          = match UpdateSnippetInput.code input with
            | Some v => v
            | None => Snippet.code orig
            end
       /\ Snippet.language u
          = match UpdateSnippetInput.language input with
            | Some v => v
            | None => Snippet.language orig
            end
       /\ Snippet.category u
          = match UpdateSnippetInput.category input with
            | Some v => v
            | None => Snippet.category orig
            end
       /\ Snippet.tags u
          = match UpdateSnippetInput.tags input with
            | Some v => v
            | None => Snippet.tags orig
            end
       /\ Snippet.favorite u
          = match UpdateSnippetInput.favorite input with
            | Some v => v
            | None => Snippet.favorite orig
            end).
Proof.
  intros w l id input Hl. split.
  - apply update_absent. exact Hl.
  - intros [s [Hin Hid]] Hw.
    destruct (first_match_split (hasId id) l) as [pre [orig [post [El [Ho Hp]]]]].
    { exists s. split; [exact Hin | apply hasId_true; exact Hid]. }
    apply hasId_true in Ho.
    assert (Hpre : forall s', In s' pre -> Snippet.id s' <> id).
    { intros s' Hs'. apply hasId_false. apply Hp. exact Hs'. }
    exists pre, orig, post, (updated orig input (reading w 0)).
    split; [exact El |]. split; [exact Ho |]. split; [exact Hpre |].
    split.
    { subst l. apply update_present; assumption. }
    split.
    { pose proof (holds_persisted (ticked 1 w)
                    (pre ++ updated orig input (reading w 0) :: post)) as H.
      rewrite map_app in H. exact H. }
    repeat split; reflexivity.
Qed.

Lemma update_partial_in_place_witness :
  holds (storing taggedSnippets) taggedSnippets
  /\ StorageService.update "zzz"
       (UpdateSnippetInput.make (Some "After update") None None None None
                                None None)
       (storing taggedSnippets)
     = (Fulfilled None, storing taggedSnippets)
  /\ exists pre orig post u,
      taggedSnippets = pre ++ orig :: post
      /\ StorageService.update "b-0000"
           (UpdateSnippetInput.make (Some "After update") None None None None
                                    None None)
           (storing taggedSnippets)
         = (Fulfilled (Some u),
            persisted (ticked 1 (storing taggedSnippets)) (pre ++ u :: post))
      /\ Snippet.title u = "After update"
      /\ Snippet.tags u = Snippet.tags orig.
Proof.
  split; [reflexivity |]. split.
  - apply (proj1 (update_partial_in_place (storing taggedSnippets)
                    taggedSnippets "zzz" _ eq_refl)).
    intros s [H | [H | [H | []]]]; subst s; discriminate.
  - destruct (proj2 (update_partial_in_place (storing taggedSnippets)
                       taggedSnippets "b-0000"
                       (UpdateSnippetInput.make (Some "After update") None
                          None None None None None) eq_refl))
      as [pre [orig [post [u H]]]].
    + exists (sampleSnippet "b-0000" "Simple variable" ["b"; "x"]).
      split; [right; left; reflexivity | reflexivity].
    + split; reflexivity.
    + exists pre, orig, post, u.
      destruct H as [El [_ [_ [Hrun [_ [_ [_ [_ [Ht [_ [_ [_ [_ [Htags _]]]]]]]]]]]]]].
      split; [exact El |]. split; [exact Hrun |].
      split; [exact Ht | exact Htags].
Defined.

(** ** Adding *)

Lemma toJSON_id (s : Snippet.t) : Snippet.id (Snippet.toJSON s) = Snippet.id s.
Proof. reflexivity. Qed.

Lemma map_toJSON_ids (l : list Snippet.t) :
  map Snippet.id (map Snippet.toJSON l) = map Snippet.id l.
Proof. rewrite map_map. reflexivity. Qed.

Lemma getById_run (w : World) (l : list Snippet.t) (id : UUID) :
  holds w l ->
  StorageService.getById id w = (Fulfilled (find (hasId id) l), w).
Proof.
  intros Hl. unfold StorageService.getById, await. rewrite Hl. reflexivity.
Qed.

Lemma created_id_declared (input : CreateSnippetInput.t) (id : UUID)
      (t1 t2 : Z) :
  declaredOnly input -> Snippet.id (created input id t1 t2) = id.
Proof. unfold declaredOnly. intros H. cbn. rewrite H. reflexivity. Qed.

(** C1, as the code has it.  On a store that can be read and written,
    [add(x)] returns a record [r]; and when no record already in the store
    carries the identifier of [r], [getById(r.id)] then returns the record
    as it was serialized: every field of [r] unchanged except [createdAt]
    and [updatedAt], which are no longer the [Date] objects of [r] but the
    ISO strings of the same instants. *)
Theorem add_then_getById :
  forall (w : World) (l : list Snippet.t) (input : CreateSnippetInput.t),
    holds w l ->
    writable w ->
    exists r w1,
      StorageService.add input w = (Fulfilled r, w1)
      /\ ((forall s, In s l -> Snippet.id s <> Snippet.id r) ->
          exists fetched,
            StorageService.getById (Snippet.id r) w1
            = (Fulfilled (Some fetched), w1)
            /\ Snippet.id fetched = Snippet.id r
            /\ Snippet.title fetched = Snippet.title r
            /\ Snippet.description fetched = Snippet.description r
            /\ Snippet.code fetched = Snippet.code r
            /\ Snippet.language fetched = Snippet.language r
            /\ Snippet.category fetched = Snippet.category r
            /\ Snippet.tags fetched = Snippet.tags r
            /\ Snippet.favorite fetched = Snippet.favorite r
            /\ (exists t, Snippet.createdAt r = DateObject t
                          /\ Snippet.createdAt fetched = IsoString t)
            /\ (exists t, Snippet.updatedAt r = DateObject t
                          /\ Snippet.updatedAt fetched = IsoString t)).
Proof.
  intros w l input Hl Hw.
  pose (r := created input (nextUuid w) (reading w 0) (reading w 1)).
  exists r, (persisted (ticked 2 (drawn w)) (l ++ [r])).
  split; [apply add_run; assumption |].
  intros Hfresh. exists (Snippet.toJSON r).
  split.
  - rewrite (getById_run _ _ _ (holds_persisted _ _)).
    rewrite map_app. cbn [map].
    rewrite find_first; [reflexivity | | apply String.eqb_refl].
    intros y Hy. apply in_map_iff in Hy. destruct Hy as [s [<- Hs]].
    apply hasId_false. rewrite toJSON_id. apply Hfresh. exact Hs.
  - repeat split; try reflexivity.
    + exists (reading w 0). split; reflexivity.
    + exists (reading w 1). split; reflexivity.
Qed.

Lemma add_then_getById_witness :
  holds (storing taggedSnippets) taggedSnippets
  /\ exists r w1 fetched,
      StorageService.add (sampleInput "Find Me") (storing taggedSnippets)
      = (Fulfilled r, w1)
      /\ StorageService.getById (Snippet.id r) w1
         = (Fulfilled (Some fetched), w1)
      /\ Snippet.title fetched = Snippet.title r
      /\ Snippet.title r = "Find Me".
Proof.
  split; [reflexivity |].
  destruct (add_then_getById (storing taggedSnippets) taggedSnippets
              (sampleInput "Find Me") eq_refl (conj eq_refl eq_refl))
    as [r [w1 [Hadd Hget]]].
  assert (Hr : r = created (sampleInput "Find Me")
                           (nextUuid (storing taggedSnippets))
                           (reading (storing taggedSnippets) 0)
                           (reading (storing taggedSnippets) 1)).
  { assert (E : StorageService.add (sampleInput "Find Me")
                  (storing taggedSnippets)
                = (Fulfilled
                     (created (sampleInput "Find Me")
                              (nextUuid (storing taggedSnippets))
                              (reading (storing taggedSnippets) 0)
                              (reading (storing taggedSnippets) 1)),
                   persisted (ticked 2 (drawn (storing taggedSnippets)))
                     (taggedSnippets
                      ++ [created (sampleInput "Find Me")
                                  (nextUuid (storing taggedSnippets))
                                  (reading (storing taggedSnippets) 0)
                                  (reading (storing taggedSnippets) 1)])))
      by reflexivity.
    rewrite E in Hadd. injection Hadd as Hadd _. symmetry. exact Hadd. }
  destruct Hget as [fetched [Hget [_ [Htitle _]]]].
  - rewrite Hr. intros s [H | [H | [H | []]]]; subst s; discriminate.
  - exists r, w1, fetched. split; [exact Hadd |]. split; [exact Hget |].
    split; [exact Htitle |]. rewrite Hr. reflexivity.
Defined.

(** C1 as stated fails on a fresh store: the record read back is not equal
    to the record that [add] returned, since its [createdAt] is a string
    where the returned record has a [Date]. *)
Lemma add_then_getById_not_equal :
  exists r w1 fetched,
    StorageService.add (sampleInput "Find Me") freshWorld = (Fulfilled r, w1)
    /\ StorageService.getById (Snippet.id r) w1 = (Fulfilled (Some fetched), w1)
    /\ fetched <> r
    /\ Snippet.createdAt fetched <> Snippet.createdAt r.
Proof.
  pose (r := created (sampleInput "Find Me") (nextUuid freshWorld)
                     (reading freshWorld 0) (reading freshWorld 1)).
  exists r, (persisted (ticked 2 (drawn freshWorld)) [r]), (Snippet.toJSON r).
  split; [reflexivity |]. split; [reflexivity |].
  split; [| discriminate].
  intros H. apply (f_equal Snippet.createdAt) in H. discriminate H.
Qed.

Lemma addEach_run (inputs : list CreateSnippetInput.t) :
  forall (w : World) (l : list Snippet.t),
    holds w l ->
    writable w ->
    exists rs w' l',
      addEach inputs w = (Fulfilled rs, w')
      /\ holds w' l'
      /\ map Snippet.id l' = map Snippet.id l ++ map Snippet.id rs
      /\ List.length rs = List.length inputs
      /\ (Forall declaredOnly inputs ->
          map Snippet.id rs
          = map (uuidSource w) (seq (uuidDrawn w) (List.length inputs))).
Proof.
  induction inputs as [| input rest IH]; intros w l Hl Hw.
  - exists [], w, l. split; [reflexivity |]. split; [exact Hl |].
    split; [rewrite app_nil_r; reflexivity |].
    split; [reflexivity | intros _; reflexivity].
  - pose (r := created input (nextUuid w) (reading w 0) (reading w 1)).
    pose (w1 := persisted (ticked 2 (drawn w)) (l ++ [r])).
    destruct (IH w1 (map Snippet.toJSON (l ++ [r])))
      as [rs [w' [l' [Hrun [Hl' [Hids [Hlen Hrs]]]]]]].
    { apply holds_persisted. }
    { exact Hw. }
    exists (r :: rs), w', l'.
    split.
    { cbn [addEach]. unfold await at 1.
      rewrite (add_run w l input Hl Hw). fold r w1.
      unfold await. rewrite Hrun. reflexivity. }
    split; [exact Hl' |].
    split.
    { rewrite Hids, map_toJSON_ids, map_app, <- app_assoc. reflexivity. }
    split; [cbn [List.length]; f_equal; exact Hlen |].
    intros Hdecl. inversion Hdecl as [| ? ? Hin Hrest]; subst.
    cbn [List.length seq map]. f_equal.
    + apply created_id_declared. exact Hin.
    + exact (Hrs Hrest).
Qed.

(** C2, as the code has it.  On a store that can be read and written,
    [add] returns the record built from the input (absent tags as the
    empty sequence, absent favorite as [false]) and two readings of the
    clock taken one after the other for [createdAt] and [updatedAt],
    which are equal when the clock has not moved in between; the record
    is appended at the end of the collection and the whole collection is
    written.  For an input with the declared fields only, the identifier
    of the record is the one freshly drawn from the generator; and over
    any number of sequential adds of such inputs the identifiers of the
    records returned are pairwise distinct. *)
Theorem add_appends_new_record :
  forall (w : World) (l : list Snippet.t),
    holds w l ->
    writable w ->
    (forall input : CreateSnippetInput.t,
        exists r w1,
          StorageService.add input w = (Fulfilled r, w1)
          /\ (declaredOnly input -> Snippet.id r = nextUuid w)
          /\ Snippet.createdAt r = DateObject (reading w 0)
          /\ Snippet.updatedAt r = DateObject (reading w 1)
          /\ (reading w 0 = reading w 1 ->
              Snippet.createdAt r = Snippet.updatedAt r)
          /\ Snippet.title r = CreateSnippetInput.title input
          /\ Snippet.description r = CreateSnippetInput.description input
          /\ Snippet.code r = CreateSnippetInput.code input
          /\ Snippet.language r = CreateSnippetInput.language input
          /\ Snippet.category r = CreateSnippetInput.category input
          /\ Snippet.tags r
             = match CreateSnippetInput.tags input with
               | Some v => v
               | None => []
               end
          /\ Snippet.favorite r
             = match CreateSnippetInput.favorite input with
               | Some v => v
               | None => false
               end
          /\ holds w1 (map Snippet.toJSON l ++ [Snippet.toJSON r])
          /\ journal w1
             = journal w ++ [Mkdir; WriteFile (JSON_stringify (l ++ [r]))])
    /\
    (forall inputs : list CreateSnippetInput.t,
        Forall declaredOnly inputs ->
        exists rs w' l',
          addEach inputs w = (Fulfilled rs, w')
          /\ List.length rs = List.length inputs
          /\ holds w' l'
          /\ map Snippet.id l' = map Snippet.id l ++ map Snippet.id rs
          /\ NoDup (map Snippet.id rs)).
Proof.
  intros w l Hl Hw. split.
  - intros input.
    pose (r := created input (nextUuid w) (reading w 0) (reading w 1)).
    exists r, (persisted (ticked 2 (drawn w)) (l ++ [r])).
    split; [apply add_run; assumption |].
    split; [apply created_id_declared |].
    do 2 (split; [reflexivity |]).
    split; [intros Heq; cbn; rewrite Heq; reflexivity |].
    do 7 (split; [reflexivity |]).
    split; [| reflexivity].
    pose proof (holds_persisted (ticked 2 (drawn w)) (l ++ [r])) as H.
    rewrite map_app in H. exact H.
  - intros inputs Hdecl.
    destruct (addEach_run inputs w l Hl Hw)
      as [rs [w' [l' [Hrun [Hl' [Hids [Hlen Hrs]]]]]]].
    exists rs, w', l'.
    split; [exact Hrun |]. split; [exact Hlen |].
    split; [exact Hl' |]. split; [exact Hids |].
    rewrite (Hrs Hdecl).
    apply Injective_map_NoDup_in; [| apply seq_NoDup].
    intros i j _ _. apply (uuidDistinct w).
Qed.

Lemma add_appends_new_record_witness :
  holds freshWorld []
  /\ writable freshWorld
  /\ (exists r w1,
         StorageService.add (sampleInput "Simple variable") freshWorld
         = (Fulfilled r, w1)
         /\ Snippet.id r = "snippet-0")
  /\ (exists rs w',
         addEach [sampleInput "Simple variable"; sampleInput "Simple variable"]
                 freshWorld
         = (Fulfilled rs, w')
         /\ List.length rs = 2%nat
         /\ NoDup (map Snippet.id rs)).
Proof.
  assert (Hw : writable freshWorld) by (split; reflexivity).
  split; [reflexivity |]. split; [exact Hw |]. split.
  - destruct (proj1 (add_appends_new_record freshWorld [] eq_refl Hw)
                (sampleInput "Simple variable")) as [r [w1 [Hadd [Hid _]]]].
    exists r, w1. split; [exact Hadd |].
    rewrite (Hid eq_refl). reflexivity.
  - destruct (proj2 (add_appends_new_record freshWorld [] eq_refl Hw)
                [sampleInput "Simple variable"; sampleInput "Simple variable"])
      as [rs [w' [l' [Hrun [Hlen [_ [_ Hnd]]]]]]].
    + repeat constructor.
    + exists rs, w'. split; [exact Hrun |]. split; [exact Hlen | exact Hnd].
Defined.

(** C2 as stated fails on a fresh store with a clock that moves at every
    reading: the [createdAt] and [updatedAt] of the record differ.  And
    with an input object that carries an identifier, a second [add] of
    the object returns a record with the identifier of the first. *)
Lemma add_clock_moves_and_id_kept :
  (exists r w1,
      StorageService.add (sampleInput "Simple variable") freshWorld
      = (Fulfilled r, w1)
      /\ Snippet.createdAt r = DateObject 1700000000000
      /\ Snippet.updatedAt r = DateObject 1700000000001
      /\ Snippet.createdAt r <> Snippet.updatedAt r)
  /\ (exists r1 w1 r2 w2,
         StorageService.add (inputWithId "kept-id" "Simple variable")
                            freshWorld
         = (Fulfilled r1, w1)
         /\ StorageService.add (inputWithId "kept-id" "Simple variable") w1
            = (Fulfilled r2, w2)
         /\ Snippet.id r1 = "kept-id"
         /\ Snippet.id r2 = "kept-id").
Proof.
  split.
  - pose (r := created (sampleInput "Simple variable") (nextUuid freshWorld)
                       (reading freshWorld 0) (reading freshWorld 1)).
    exists r, (persisted (ticked 2 (drawn freshWorld)) [r]).
    split; [reflexivity |]. split; [reflexivity |]. split; [reflexivity |].
    discriminate.
  - pose (i := inputWithId "kept-id" "Simple variable").
    pose (r1 := created i (nextUuid freshWorld)
                        (reading freshWorld 0) (reading freshWorld 1)).
    pose (w1 := persisted (ticked 2 (drawn freshWorld)) [r1]).
    pose (r2 := created i (nextUuid w1) (reading w1 0) (reading w1 1)).
    exists r1, w1, r2,
      (persisted (ticked 2 (drawn w1)) (map Snippet.toJSON [r1] ++ [r2])).
    split; [reflexivity |]. split; [reflexivity |].
    split; reflexivity.
Qed.

(** ** Sorting: stability and order *)

Section ArraySortOrder.
Context {A : Type} (cmp : A -> A -> Z).

(** Elements that compare equal to a common one compare equal. *)
Hypothesis cmp_zero :
  forall x y k, cmp x k = 0 -> cmp y k = 0 -> cmp x y = 0.

Lemma sortInsert_stable (k x : A) (l : list A) :
  List.filter (fun y => cmp y k =? 0) (sortInsert cmp x l)
  = List.filter (fun y => cmp y k =? 0) (x :: l).
Proof.
  induction l as [| y l IH].
  - reflexivity.
  - cbn [sortInsert]. destruct (cmp x y <=? 0) eqn:Hxy; [reflexivity |].
    cbn [List.filter] in *. rewrite IH.
    destruct (cmp x k =? 0) eqn:Hx; [| reflexivity].
    destruct (cmp y k =? 0) eqn:Hy; [| reflexivity].
    apply Z.eqb_eq in Hx, Hy. apply Z.leb_gt in Hxy.
    rewrite (cmp_zero x y k Hx Hy) in Hxy. lia.
Qed.

Lemma Array_sort_stable (k : A) (l : list A) :
  List.filter (fun y => cmp y k =? 0) (Array_sort cmp l)
  = List.filter (fun y => cmp y k =? 0) l.
Proof.
  induction l as [| x l IH].
  - reflexivity.
  - cbn [Array_sort]. rewrite sortInsert_stable.
    cbn [List.filter]. rewrite IH. reflexivity.
Qed.

Hypothesis cmp_total : forall x y, 0 < cmp x y -> cmp y x <= 0.

Lemma sortInsert_sorted (x : A) (l : list A) :
  Sorted (fun a b => cmp a b <= 0) l ->
  Sorted (fun a b => cmp a b <= 0) (sortInsert cmp x l).
Proof.
  induction l as [| y l IH]; intros Hs.
  - cbn. constructor; constructor.
  - cbn [sortInsert]. destruct (cmp x y <=? 0) eqn:Hxy.
    + apply Z.leb_le in Hxy. constructor; [exact Hs |].
      constructor. exact Hxy.
    + apply Z.leb_gt in Hxy. inversion Hs as [| ? ? Hs' Hhd]; subst.
      constructor; [apply IH; exact Hs' |].
      destruct l as [| z l]; cbn [sortInsert].
      * constructor. apply cmp_total. exact Hxy.
      * destruct (cmp x z <=? 0).
        -- constructor. apply cmp_total. exact Hxy.
        -- inversion Hhd; subst. constructor. assumption.
Qed.

Lemma Array_sort_sorted (l : list A) :
  Sorted (fun a b => cmp a b <= 0) (Array_sort cmp l).
Proof.
  induction l as [| x l IH]; cbn [Array_sort].
  - constructor.
  - apply sortInsert_sorted. exact IH.
Qed.
End ArraySortOrder.

(** ** The comparator of [sortSnippets] *)

Lemma string_compare_refl (s : string) : String.compare s s = Eq.
Proof.
  pose proof (String.compare_antisym s s) as H.
  destruct (String.compare s s); [reflexivity | discriminate | discriminate].
Qed.

Lemma string_compare_le_trans (a : string) :
  forall b c : string,
    String.compare a b <> Gt -> String.compare b c <> Gt ->
    String.compare a c <> Gt.
Proof.
  induction a as [| x a IH]; intros [| y b] [| z c]; cbn;
    try congruence.
  unfold Ascii.compare.
  destruct (N.compare_spec (N_of_ascii x) (N_of_ascii y)) as [Exy | Lxy | Gxy];
    destruct (N.compare_spec (N_of_ascii y) (N_of_ascii z)) as [Eyz | Lyz | Gyz];
    destruct (N.compare_spec (N_of_ascii x) (N_of_ascii z)) as [Exz | Lxz | Gxz];
    try congruence; try lia.
  apply IH.
Qed.

Lemma compareBool_le_trans (a b c : bool) :
  compareBool a b <> Gt -> compareBool b c <> Gt -> compareBool a c <> Gt.
Proof. destruct a, b, c; cbn; congruence. Qed.

Lemma Z_compare_le_trans (a b c : Z) :
  (a ?= b) <> Gt -> (b ?= c) <> Gt -> (a ?= c) <> Gt.
Proof.
  destruct (Z.compare_spec a b), (Z.compare_spec b c), (Z.compare_spec a c);
    try congruence; lia.
Qed.

Lemma keyCompare_antisym (field : SnippetSortField) (a b : Snippet.t) :
  keyCompare field a b = CompOpp (keyCompare field b a).
Proof.
  destruct field; cbn;
    try apply Z.compare_antisym; try apply String.compare_antisym.
  destruct (Snippet.favorite a), (Snippet.favorite b); reflexivity.
Qed.

Lemma keyCompare_le_trans (field : SnippetSortField) (a b c : Snippet.t) :
  keyCompare field a b <> Gt -> keyCompare field b c <> Gt ->
  keyCompare field a c <> Gt.
Proof.
  destruct field; cbn;
    try apply Z_compare_le_trans; try apply string_compare_le_trans.
  apply compareBool_le_trans.
Qed.

Lemma keyCompare_Eq_common (field : SnippetSortField) (x y k : Snippet.t) :
  keyCompare field x k = Eq -> keyCompare field y k = Eq ->
  keyCompare field x y = Eq.
Proof.
  destruct field; cbn; intros Hx Hy.
  - apply Z.compare_eq_iff in Hx, Hy. rewrite Hx, Hy. apply Z.compare_refl.
  - apply Z.compare_eq_iff in Hx, Hy. rewrite Hx, Hy. apply Z.compare_refl.
  - apply String.compare_eq_iff in Hx, Hy. rewrite Hx, Hy.
    apply string_compare_refl.
  - apply String.compare_eq_iff in Hx, Hy. rewrite Hx, Hy.
    apply string_compare_refl.
  - apply String.compare_eq_iff in Hx, Hy. rewrite Hx, Hy.
    apply string_compare_refl.
  - destruct (Snippet.favorite x), (Snippet.favorite y), (Snippet.favorite k);
      cbn in *; congruence.
Qed.

Lemma number_comparison (x y : Z) :
  (if x <? y then -1 else if y <? x then 1 else 0) = sign (x ?= y).
Proof.
  unfold Z.ltb. rewrite (Z.compare_antisym x y).
  destruct (x ?= y); reflexivity.
Qed.

Lemma string_comparison (x y : string) :
  (if String.ltb x y then -1 else if String.ltb y x then 1 else 0)
  = sign (String.compare x y).
Proof.
  unfold String.ltb. rewrite (String.compare_antisym y x).
  destruct (String.compare x y); reflexivity.
Qed.

Lemma compareSnippets_asc (field : SnippetSortField) (a b : Snippet.t) :
  StorageService.compareSnippets (SnippetSort.make field asc) a b
  = sign (keyCompare field a b).
Proof.
  destruct field; unfold StorageService.compareSnippets, js_gt; cbn;
    try apply number_comparison; try apply string_comparison.
  destruct (Snippet.favorite a), (Snippet.favorite b); reflexivity.
Qed.

Lemma compareSnippets_desc (field : SnippetSortField) (a b : Snippet.t) :
  StorageService.compareSnippets (SnippetSort.make field desc) a b
  = - StorageService.compareSnippets (SnippetSort.make field asc) a b.
Proof. destruct field; reflexivity. Qed.

Lemma compareSnippets_zero (sort : SnippetSort.t) (a b : Snippet.t) :
  StorageService.compareSnippets sort a b = 0
  <-> keyCompare (SnippetSort.field sort) a b = Eq.
Proof.
  destruct sort as [field [|]]; cbn [SnippetSort.field].
  - rewrite compareSnippets_asc.
    destruct (keyCompare field a b); cbn; split; congruence.
  - rewrite compareSnippets_desc, compareSnippets_asc.
    destruct (keyCompare field a b); cbn; split; congruence.
Qed.

Lemma compareSnippets_zero_common (sort : SnippetSort.t) (x y k : Snippet.t) :
  StorageService.compareSnippets sort x k = 0 ->
  StorageService.compareSnippets sort y k = 0 ->
  StorageService.compareSnippets sort x y = 0.
Proof.
  rewrite !compareSnippets_zero. apply keyCompare_Eq_common.
Qed.

Lemma compareSnippets_total (sort : SnippetSort.t) (x y : Snippet.t) :
  0 < StorageService.compareSnippets sort x y ->
  StorageService.compareSnippets sort y x <= 0.
Proof.
  destruct sort as [field [|]];
    rewrite ?compareSnippets_desc, !compareSnippets_asc;
    rewrite (keyCompare_antisym field y x);
    destruct (keyCompare field x y); cbn; lia.
Qed.

Lemma inOrder_trans (sort : SnippetSort.t) (a b c : Snippet.t) :
  inOrder sort a b -> inOrder sort b c -> inOrder sort a c.
Proof.
  unfold inOrder. destruct sort as [field [|]];
    rewrite ?compareSnippets_desc, !compareSnippets_asc.
  - pose proof (keyCompare_le_trans field a b c) as H.
    destruct (keyCompare field a b), (keyCompare field b c),
      (keyCompare field a c); cbn; intros; try lia;
      exfalso; apply H; congruence.
  - pose proof (keyCompare_le_trans field c b a) as H.
    rewrite (keyCompare_antisym field c b), (keyCompare_antisym field b a),
      (keyCompare_antisym field c a) in H.
    destruct (keyCompare field a b), (keyCompare field b c),
      (keyCompare field a c); cbn in *; intros; try lia;
      exfalso; apply H; congruence.
Qed.

(** [sortSnippets] returns its argument rearranged into the order of the
    comparator: every record may come before every later one. *)
Lemma sortSnippets_sorts (snippets : list Snippet.t) (sort : SnippetSort.t) :
  Permutation (StorageService.sortSnippets snippets sort) snippets
  /\ StronglySorted (inOrder sort) (StorageService.sortSnippets snippets sort).
Proof.
  split.
  - apply Array_sort_perm.
  - apply Sorted_StronglySorted.
    + intros a b c. apply inOrder_trans.
    + apply Array_sort_sorted. apply compareSnippets_total.
Qed.

Lemma filter_sorted_run (w : World) (l : list Snippet.t)
      (f : SnippetFilter.t) (field : SnippetSortField) :
  holds w l ->
  SnippetFilter.sortBy f = Some field ->
  StorageService.filter (Some f) w
  = (Fulfilled
       (StorageService.sortSnippets
          (List.filter (StorageService.matches f) l)
          (SnippetSort.make field (nullish (SnippetFilter.sortOrder f) asc))),
     w).
Proof.
  intros Hl Hby. rewrite (filter_run w l f Hl), Hby. reflexivity.
Qed.

(** Three sequential adds on an empty store. *)
Lemma three_adds (w : World) (i1 i2 i3 : CreateSnippetInput.t) :
  holds w [] ->
  writable w ->
  let r1 := created i1 (uuidSource w (uuidDrawn w))
                    (reading w 0) (reading w 1) in
  let r2 := created i2 (uuidSource w (S (uuidDrawn w)))
                    (reading w 2) (reading w 3) in
  let r3 := created i3 (uuidSource w (S (S (uuidDrawn w))))
                    (reading w 4) (reading w 5) in
  exists w1 w2 w3,
    StorageService.add i1 w = (Fulfilled r1, w1)
    /\ StorageService.add i2 w1 = (Fulfilled r2, w2)
    /\ StorageService.add i3 w2 = (Fulfilled r3, w3)
    /\ holds w3 [Snippet.toJSON r1; Snippet.toJSON r2; Snippet.toJSON r3].
Proof.
  intros Hl Hw r1 r2 r3.
  pose (w1 := persisted (ticked 2 (drawn w)) ([] ++ [r1])).
  pose (w2 := persisted (ticked 2 (drawn w1))
                (map Snippet.toJSON ([] ++ [r1]) ++ [r2])).
  pose (w3 := persisted (ticked 2 (drawn w2))
                (map Snippet.toJSON (map Snippet.toJSON ([] ++ [r1]) ++ [r2])
                 ++ [r3])).
  exists w1, w2, w3.
  split; [exact (add_run w [] i1 Hl Hw) |].
  split.
  { exact (add_run w1 _ i2 (holds_persisted _ _) Hw). }
  split.
  { exact (add_run w2 _ i3 (holds_persisted _ _) Hw). }
  exact (holds_persisted (ticked 2 (drawn w2)) _).
Qed.

(** C8.  The comparator handed to the sort gives, in ascending order, the
    sign of: the lexicographic comparison of the case-folded values for
    the string fields (title, language, category); the comparison with
    [false] before [true] for [favorite]; the comparison of the instants
    for [createdAt] and [updatedAt].  In descending order it gives the
    negation of the ascending result.  The answer of a sorting [filter] is
    the filtered collection rearranged into that order, and the records
    whose keys are equal stay in the order they have in the filtered
    collection.  After adding "Zebra", "Apple" and "Mango" in that order
    to an empty store, at strictly increasing instants, sorting by title
    ascending gives Apple, Mango, Zebra and sorting by [createdAt]
    descending gives Mango, Apple, Zebra. *)
Theorem sort_rules :
  (forall a b : Snippet.t,
      StorageService.compareSnippets (SnippetSort.make byTitle asc) a b
      = sign (String.compare (toLowerCase (Snippet.title a))
                             (toLowerCase (Snippet.title b)))
      /\ StorageService.compareSnippets (SnippetSort.make byLanguage asc) a b
         = sign (String.compare (toLowerCase (Snippet.language a))
                                (toLowerCase (Snippet.language b)))
      /\ StorageService.compareSnippets (SnippetSort.make byCategory asc) a b
         = sign (String.compare (toLowerCase (Snippet.category a))
                                (toLowerCase (Snippet.category b)))
      /\ StorageService.compareSnippets (SnippetSort.make byFavorite asc) a b
         = match Snippet.favorite a, Snippet.favorite b with
           | false, true => -1
           | true, false => 1
           | _, _ => 0
           end
      /\ StorageService.compareSnippets (SnippetSort.make byCreatedAt asc) a b
         = sign (getTime (Snippet.createdAt a)
                 ?= getTime (Snippet.createdAt b))
      /\ StorageService.compareSnippets (SnippetSort.make byUpdatedAt asc) a b
         = sign (getTime (Snippet.updatedAt a)
                 ?= getTime (Snippet.updatedAt b)))
  /\
  (forall (field : SnippetSortField) (a b : Snippet.t),
      StorageService.compareSnippets (SnippetSort.make field desc) a b
      = - StorageService.compareSnippets (SnippetSort.make field asc) a b)
  /\
  (forall (w : World) (l : list Snippet.t) (f : SnippetFilter.t)
          (field : SnippetSortField),
      holds w l ->
      SnippetFilter.sortBy f = Some field ->
      let sort :=
        SnippetSort.make field (nullish (SnippetFilter.sortOrder f) asc) in
      let filtered := List.filter (StorageService.matches f) l in
      exists res,
        StorageService.filter (Some f) w = (Fulfilled res, w)
        /\ Permutation res filtered
        /\ StronglySorted (inOrder sort) res
        /\ forall k : Snippet.t,
            List.filter (sameKey sort k) res
            = List.filter (sameKey sort k) filtered)
  /\
  (forall (w : World) (i1 i2 i3 : CreateSnippetInput.t),
      holds w [] ->
      writable w ->
      CreateSnippetInput.title i1 = "Zebra" ->
      CreateSnippetInput.title i2 = "Apple" ->
      CreateSnippetInput.title i3 = "Mango" ->
      reading w 0 < reading w 2 ->
      reading w 2 < reading w 4 ->
      exists r1 r2 r3 w1 w2 w3 byTitleAsc byCreatedDesc,
        StorageService.add i1 w = (Fulfilled r1, w1)
        /\ StorageService.add i2 w1 = (Fulfilled r2, w2)
        /\ StorageService.add i3 w2 = (Fulfilled r3, w3)
        /\ getTime (Snippet.createdAt r1) < getTime (Snippet.createdAt r2)
        /\ getTime (Snippet.createdAt r2) < getTime (Snippet.createdAt r3)
        /\ StorageService.filter (Some (sortedBy byTitle asc)) w3
           = (Fulfilled byTitleAsc, w3)
        /\ map Snippet.title byTitleAsc = ["Apple"; "Mango"; "Zebra"]
        /\ StorageService.filter (Some (sortedBy byCreatedAt desc)) w3
           = (Fulfilled byCreatedDesc, w3)
        /\ map Snippet.title byCreatedDesc = ["Mango"; "Apple"; "Zebra"]).
Proof.
  split; [| split; [| split]].
  - intros a b.
    split; [apply (compareSnippets_asc byTitle) |].
    split; [apply (compareSnippets_asc byLanguage) |].
    split; [apply (compareSnippets_asc byCategory) |].
    split.
    { rewrite (compareSnippets_asc byFavorite). cbn.
      destruct (Snippet.favorite a), (Snippet.favorite b); reflexivity. }
    split; [apply (compareSnippets_asc byCreatedAt) |].
    apply (compareSnippets_asc byUpdatedAt).
  - apply compareSnippets_desc.
  - intros w l f field Hl Hby sort filtered.
    exists (StorageService.sortSnippets filtered sort).
    split; [apply filter_sorted_run; assumption |].
    split; [apply sortSnippets_sorts |].
    split; [apply sortSnippets_sorts |].
    intros k. unfold sameKey, StorageService.sortSnippets.
    apply Array_sort_stable. apply compareSnippets_zero_common.
  - intros w i1 i2 i3 Hl Hw Ht1 Ht2 Ht3 H02 H24.
    destruct (three_adds w i1 i2 i3 Hl Hw) as [w1 [w2 [w3 [A1 [A2 [A3 Hl3]]]]]].
    set (r1 := created i1 _ _ _) in *.
    set (r2 := created i2 _ _ _) in *.
    set (r3 := created i3 _ _ _) in *.
    exists r1, r2, r3, w1, w2, w3,
      [Snippet.toJSON r2; Snippet.toJSON r3; Snippet.toJSON r1],
      [Snippet.toJSON r3; Snippet.toJSON r2; Snippet.toJSON r1].
    split; [exact A1 |]. split; [exact A2 |]. split; [exact A3 |].
    split; [exact H02 |]. split; [exact H24 |].
    split.
    { rewrite (filter_sorted_run w3 _ (sortedBy byTitle asc) byTitle Hl3 eq_refl).
      f_equal. unfold r1, r2, r3, created.
      rewrite Ht1, Ht2, Ht3. reflexivity. }
    split.
    { cbn. rewrite Ht1, Ht2, Ht3. reflexivity. }
    split.
    { rewrite (filter_sorted_run w3 _ (sortedBy byCreatedAt desc) byCreatedAt
                 Hl3 eq_refl).
      f_equal.
      assert (C23 : StorageService.compareSnippets
                      (SnippetSort.make byCreatedAt desc)
                      (Snippet.toJSON r2) (Snippet.toJSON r3) = 1).
      { rewrite compareSnippets_desc, (compareSnippets_asc byCreatedAt). cbn.
        change (- sign (reading w 2 ?= reading w 4) = 1).
        rewrite (proj2 (Z.compare_lt_iff _ _) H24). reflexivity. }
      assert (C13 : StorageService.compareSnippets
                      (SnippetSort.make byCreatedAt desc)
                      (Snippet.toJSON r1) (Snippet.toJSON r3) = 1).
      { rewrite compareSnippets_desc, (compareSnippets_asc byCreatedAt). cbn.
        change (- sign (reading w 0 ?= reading w 4) = 1).
        rewrite (proj2 (Z.compare_lt_iff (reading w 0) (reading w 4)))
          by lia.
        reflexivity. }
      assert (C12 : StorageService.compareSnippets
                      (SnippetSort.make byCreatedAt desc)
                      (Snippet.toJSON r1) (Snippet.toJSON r2) = 1).
      { rewrite compareSnippets_desc, (compareSnippets_asc byCreatedAt). cbn.
        change (- sign (reading w 0 ?= reading w 2) = 1).
        rewrite (proj2 (Z.compare_lt_iff _ _) H02). reflexivity. }
      unfold StorageService.sortSnippets.
      cbn [List.filter StorageService.matches sortedBy nullish
           SnippetFilter.query SnippetFilter.language SnippetFilter.category
           SnippetFilter.tags SnippetFilter.favorite SnippetFilter.sortOrder
           Array_sort sortInsert].
      rewrite C23. cbn [Z.leb Z.compare sortInsert].
      rewrite C13. cbn [Z.leb Z.compare sortInsert].
      rewrite C12. reflexivity. }
    cbn. rewrite Ht1, Ht2, Ht3. reflexivity.
Qed.

Lemma sort_rules_witness :
  (holds (storing taggedSnippets) taggedSnippets
   /\ exists res,
       StorageService.filter (Some (sortedBy byTitle desc))
                             (storing taggedSnippets)
       = (Fulfilled res, storing taggedSnippets)
       /\ Permutation res
            (List.filter (StorageService.matches (sortedBy byTitle desc))
                         taggedSnippets))
  /\
  (holds freshWorld []
   /\ writable freshWorld
   /\ reading freshWorld 0 < reading freshWorld 2
   /\ reading freshWorld 2 < reading freshWorld 4
   /\ exists w3 byTitleAsc byCreatedDesc,
       StorageService.filter (Some (sortedBy byTitle asc)) w3
       = (Fulfilled byTitleAsc, w3)
       /\ map Snippet.title byTitleAsc = ["Apple"; "Mango"; "Zebra"]
       /\ StorageService.filter (Some (sortedBy byCreatedAt desc)) w3
          = (Fulfilled byCreatedDesc, w3)
       /\ map Snippet.title byCreatedDesc = ["Mango"; "Apple"; "Zebra"]).
Proof.
  assert (Hw : writable freshWorld) by (split; reflexivity).
  split.
  - split; [reflexivity |].
    destruct (proj1 (proj2 (proj2 sort_rules)) (storing taggedSnippets)
                taggedSnippets (sortedBy byTitle desc) byTitle eq_refl eq_refl)
      as [res [Hrun [Hperm _]]].
    exists res. split; [exact Hrun | exact Hperm].
  - split; [reflexivity |]. split; [exact Hw |].
    split; [reflexivity |]. split; [reflexivity |].
    destruct (proj2 (proj2 (proj2 sort_rules)) freshWorld
                (sampleInput "Zebra") (sampleInput "Apple")
                (sampleInput "Mango") eq_refl Hw eq_refl eq_refl eq_refl
                eq_refl eq_refl)
      as [r1 [r2 [r3 [w1 [w2 [w3 [byT [byC H]]]]]]]].
    exists w3, byT, byC.
    destruct H as [_ [_ [_ [_ [_ [HT [HTt [HC HCt]]]]]]]].
    split; [exact HT |]. split; [exact HTt |]. split; [exact HC | exact HCt].
Defined.

(** * Further properties of the service *)

(** ** Failures *)

Lemma prefix_append (p s : string) : String.prefix p (p ++ s)%string = true.
Proof.
  induction p as [| a p IH]; cbn.
  - destruct s; reflexivity.
  - destruct (ascii_dec a a) as [_ | Hne]; [exact IH | contradiction].
Qed.

Lemma readJSONFile_cases (w : World) :
  (exists l, holds w l)
  \/ (unreadable w
      /\ StorageService.readJSONFile w
         = (Rejected (JsError.Error
                        ("Failed to read storage file: "
                         ++ JsError.toString (readCause w))%string), w)).
Proof.
  unfold holds, unreadable, readCause, StorageService.readJSONFile, tryCatch,
    await, fs_readFile.
  destruct (node w) as [e | [raw complaint | doc]]; cbn.
  - destruct (JsError.hasCode e "ENOENT").
    + left. exists []. reflexivity.
    + right. split; reflexivity.
  - right. split; [exact I | reflexivity].
  - left. exists doc. reflexivity.
Qed.

Lemma unreadable_rejects (w : World) :
  unreadable w ->
  StorageService.readJSONFile w
  = (Rejected (JsError.Error
                 ("Failed to read storage file: "
                  ++ JsError.toString (readCause w))%string), w).
Proof.
  intros Hu. destruct (readJSONFile_cases w) as [[l Hl] | [_ H]]; [| exact H].
  exfalso. revert Hu Hl.
  unfold holds, unreadable, StorageService.readJSONFile, tryCatch, await,
    fs_readFile.
  destruct (node w) as [e | [raw complaint | doc]]; cbn.
  - intros ->. discriminate.
  - discriminate.
  - contradiction.
Qed.


Lemma prefix_cons_inv (a : ascii) (p m : string) :
  String.prefix (String a p) m = true ->
  exists m', m = String a m' /\ String.prefix p m' = true.
Proof.
  destruct m as [| b m]; cbn; [discriminate |].
  destruct (ascii_dec a b) as [<- | _]; [| discriminate].
  intros H. exists m. split; [reflexivity | exact H].
Qed.





(** The reading methods leave the world as they found it, whether they
    fulfil or reject: nothing is written, no directory is created, no
    identifier is drawn and the clock is not read. *)
Theorem reads_change_nothing :
  forall w : World,
    snd (StorageService.getAll w) = w
    /\ (forall id, snd (StorageService.getById id w) = w)
    /\ (forall arg, snd (StorageService.filter arg w) = w)
    /\ (forall text, snd (StorageService.search text w) = w).
Proof.
  intros w.
  pose proof (readJSONFile_leaves_world w) as Hr.
  assert (Hf : forall arg, snd (StorageService.filter arg w) = w).
  { intros arg. unfold StorageService.filter, await.
    destruct (StorageService.readJSONFile w) as [[l | e] w']; exact Hr. }
  split; [exact Hr |]. split; [| split; [exact Hf |]].
  - intros id. unfold StorageService.getById, await.
    destruct (StorageService.readJSONFile w) as [[l | e] w']; exact Hr.
  - intros text. apply Hf.
Qed.

(** When the file cannot be read for a reason other than its absence,
    every method that starts by reading rejects with the read failure
    that wraps the cause, and the world is left as it was: in particular
    [add] neither draws an identifier nor overwrites the file. *)
Theorem unreadable_store_rejects :
  forall w : World,
    unreadable w ->
    let e := JsError.Error ("Failed to read storage file: "
                            ++ JsError.toString (readCause w))%string in
    StorageReadError e = true
    /\ StorageService.getAll w = (Rejected e, w)
    /\ (forall id, StorageService.getById id w = (Rejected e, w))
    /\ (forall arg, StorageService.filter arg w = (Rejected e, w))
    /\ (forall text, StorageService.search text w = (Rejected e, w))
    /\ (forall input, StorageService.add input w = (Rejected e, w))
    /\ (forall id input, StorageService.update id input w = (Rejected e, w))
    /\ (forall id, StorageService.delete id w = (Rejected e, w)).
Proof.
  intros w Hu e.
  pose proof (unreadable_rejects w Hu) as Hr. fold e in Hr.
  split.
  { exact (prefix_append "Failed to read storage file: "
                         (JsError.toString (readCause w))). }
  split; [exact Hr |].
  assert (Hf : forall arg, StorageService.filter arg w = (Rejected e, w)).
  { intros arg. unfold StorageService.filter, await. rewrite Hr. reflexivity. }
  split.
  { intros id. unfold StorageService.getById, await. rewrite Hr. reflexivity. }
  split; [exact Hf |].
  split; [intros text; apply Hf |].
  split.
  { intros input. unfold StorageService.add, await. rewrite Hr. reflexivity. }
  split.
  { intros id input. unfold StorageService.update, await. rewrite Hr.
    reflexivity. }
  intros id. unfold StorageService.delete, await. rewrite Hr. reflexivity.
Qed.

Lemma unreadable_store_rejects_witness :
  unreadable corruptWorld
  /\ exists e,
      StorageReadError e = true
      /\ StorageService.add (sampleInput "Test") corruptWorld
         = (Rejected e, corruptWorld)
      /\ StorageService.delete "a-0000" corruptWorld = (Rejected e, corruptWorld).
Proof.
  split; [exact I |].
  destruct (unreadable_store_rejects corruptWorld I)
    as [Hk [_ [_ [_ [_ [Ha [_ Hd]]]]]]].
  eexists. split; [exact Hk |]. split; [apply Ha | apply Hd].
Defined.











Ltac peel H :=
  let m := fresh "m" in
  apply prefix_cons_inv in H; destruct H as [m [-> H]].

(** The three failures of the service can be told apart: no error is of
    two kinds at once. *)
Theorem failure_kinds_exclusive :
  forall e : JsError.t,
    (StorageReadError e = true ->
     StorageWriteError e = false /\ StorageDirectoryError e = false)
    /\ (StorageWriteError e = true ->
        StorageReadError e = false /\ StorageDirectoryError e = false)
    /\ (StorageDirectoryError e = true ->
        StorageReadError e = false /\ StorageWriteError e = false).
Proof.
  intros [name message code].
  unfold StorageReadError, StorageWriteError, StorageDirectoryError.
  cbn [JsError.message].
  split; [| split]; intros H; do 11 peel H; split; reflexivity.
Qed.

Lemma failure_kinds_exclusive_witness :
  StorageReadError (JsError.Error "Failed to read storage file: x") = true
  /\ StorageWriteError (JsError.Error "Failed to read storage file: x") = false
  /\ StorageDirectoryError (JsError.Error "Failed to read storage file: x")
     = false.
Proof.
  split; [reflexivity |].
  apply (proj1 (failure_kinds_exclusive
                  (JsError.Error "Failed to read storage file: x"))).
  reflexivity.
Defined.

(** ** Emptying the store *)

(** [deleteAll] does not read: on a file system that accepts writes it
    fulfils whatever the file held, corrupt text included, and leaves the
    empty collection; a second call does the same again. *)
Theorem deleteAll_empties :
  forall w : World,
    writable w ->
    StorageService.deleteAll w = (Fulfilled tt, persisted w [])
    /\ StorageService.getAll (persisted w []) = (Fulfilled [], persisted w [])
    /\ StorageService.deleteAll (persisted w [])
       = (Fulfilled tt, persisted (persisted w []) [])
    /\ StorageService.getAll (persisted (persisted w []) [])
       = (Fulfilled [], persisted (persisted w []) []).
Proof.
  intros w Hw.
  split; [apply writeJSONFile_writable; exact Hw |].
  split; [exact (holds_persisted w []) |].
  split; [apply writeJSONFile_writable; exact Hw |].
  exact (holds_persisted (persisted w []) []).
Qed.

Lemma deleteAll_empties_witness :
  unreadable corruptWorld
  /\ StorageService.deleteAll corruptWorld
     = (Fulfilled tt, persisted corruptWorld [])
  /\ StorageService.getAll (persisted corruptWorld [])
     = (Fulfilled [], persisted corruptWorld []).
Proof.
  split; [exact I |].
  destruct (deleteAll_empties corruptWorld) as [H1 [H2 _]].
  - split; reflexivity.
  - split; [exact H1 | exact H2].
Defined.

(** ** Looking up, and how the changing methods compose with it *)

Lemma find_map_toJSON (id : UUID) (l : list Snippet.t) :
  find (hasId id) (map Snippet.toJSON l)
  = option_map Snippet.toJSON (find (hasId id) l).
Proof.
  induction l as [| x l IH]; cbn [map find option_map].
  - reflexivity.
  - change (hasId id (Snippet.toJSON x)) with (hasId id x).
    destruct (hasId id x); [reflexivity | exact IH].
Qed.

Lemma find_filter_other (id id' : UUID) (l : list Snippet.t) :
  id' <> id ->
  find (hasId id') (List.filter (fun s => negb (hasId id s)) l)
  = find (hasId id') l.
Proof.
  intros Hne. induction l as [| x l IH]; cbn [List.filter find].
  - reflexivity.
  - destruct (hasId id x) eqn:Hx; cbn [negb find].
    + destruct (hasId id' x) eqn:Hx'; [| exact IH].
      apply hasId_true in Hx, Hx'. congruence.
    + destruct (hasId id' x); [reflexivity | exact IH].
Qed.

Lemma find_filter_same (id : UUID) (l : list Snippet.t) :
  find (hasId id) (List.filter (fun s => negb (hasId id s)) l) = None.
Proof.
  apply find_none_rejected. intros x Hx.
  apply List.filter_In in Hx. destruct Hx as [_ Hx].
  apply negb_true_iff. exact Hx.
Qed.

Lemma find_replaced_other (id' : UUID) (pre post : list Snippet.t)
      (orig u : Snippet.t) :
  hasId id' u = hasId id' orig ->
  hasId id' orig = false ->
  find (hasId id') (pre ++ u :: post) = find (hasId id') (pre ++ orig :: post).
Proof.
  intros Hu Ho. induction pre as [| x pre IH]; cbn [app find].
  - rewrite Hu, Ho. reflexivity.
  - destruct (hasId id' x); [reflexivity | exact IH].
Qed.

(** [getById] answers with the not-found value exactly when no record of
    the collection carries the identifier, and otherwise with the first
    record, in file order, that carries it. *)
Theorem getById_first_or_null :
  forall (w : World) (l : list Snippet.t) (id : UUID),
    holds w l ->
    (StorageService.getById id w = (Fulfilled None, w)
     <-> forall s, In s l -> Snippet.id s <> id)
    /\ (forall s,
           StorageService.getById id w = (Fulfilled (Some s), w)
           <-> exists pre post,
               l = pre ++ s :: post
               /\ Snippet.id s = id
               /\ forall x, In x pre -> Snippet.id x <> id).
Proof.
  intros w l id Hl. rewrite (getById_run w l id Hl). split.
  - split.
    + intros H s Hs. apply hasId_false.
      assert (Hf : find (hasId id) l = None) by congruence.
      exact (find_none _ _ Hf s Hs).
    + intros Hnone. rewrite find_none_rejected; [reflexivity |].
      intros s Hs. apply hasId_false. apply Hnone. exact Hs.
  - intros s. split.
    + intros H. assert (Hf : find (hasId id) l = Some s) by congruence.
      destruct (find_some _ _ Hf) as [Hin Hid].
      destruct (first_match_split (hasId id) l) as [pre [x [post [El [Hx Hp]]]]].
      { exists s. tauto. }
      assert (x = s).
      { rewrite El, (find_first _ pre post x Hp Hx) in Hf. congruence. }
      subst x. exists pre, post. split; [exact El |].
      split; [apply hasId_true; exact Hx |].
      intros y Hy. apply hasId_false. apply Hp. exact Hy.
    + intros [pre [post [-> [Hid Hp]]]].
      rewrite find_first; [reflexivity | | apply hasId_true; exact Hid].
      intros y Hy. apply hasId_false. apply Hp. exact Hy.
Qed.

Lemma getById_first_or_null_witness :
  holds (storing twinSnippets) twinSnippets
  /\ StorageService.getById "zzz" (storing twinSnippets)
     = (Fulfilled None, storing twinSnippets)
  /\ StorageService.getById "dup-0000" (storing twinSnippets)
     = (Fulfilled (Some (sampleSnippet "dup-0000" "To Be Deleted" [])),
        storing twinSnippets).
Proof.
  split; [reflexivity |]. split.
  - apply (proj1 (getById_first_or_null (storing twinSnippets) twinSnippets
                    "zzz" eq_refl)).
    intros s [H | [H | []]]; subst s; discriminate.
  - apply (proj2 (getById_first_or_null (storing twinSnippets) twinSnippets
                    "dup-0000" eq_refl)).
    exists [], [sampleSnippet "dup-0000" "Find Me" []].
    split; [reflexivity |]. split; [reflexivity |]. intros x [].
Defined.

(** After a [delete] that found the identifier, [getById] no longer finds
    it, a second [delete] answers [false] without writing, and a lookup
    of any other identifier answers as before (with the record as it is
    serialized). *)
Theorem delete_then_lookup :
  forall (w : World) (l : list Snippet.t) (id : UUID),
    holds w l ->
    writable w ->
    (exists s, In s l /\ Snippet.id s = id) ->
    exists w',
      StorageService.delete id w = (Fulfilled true, w')
      /\ StorageService.getById id w' = (Fulfilled None, w')
      /\ StorageService.delete id w' = (Fulfilled false, w')
      /\ forall id',
          id' <> id ->
          StorageService.getById id' w'
          = (Fulfilled (option_map Snippet.toJSON (find (hasId id') l)), w').
Proof.
  intros w l id Hl Hw [s [Hin Hid]].
  set (kept := List.filter (fun x => negb (hasId id x)) l).
  exists (persisted w kept).
  pose proof (holds_persisted w kept) as Hk.
  split.
  { rewrite (delete_run w l id Hl). cbv zeta. fold kept.
    pose proof (filter_complement_length (hasId id) l) as Hlen. fold kept in Hlen.
    pose proof (countIf_positive (hasId id) l s Hin
                  (proj2 (hasId_true id s) Hid)) as Hpos.
    assert (Hne : Nat.eqb (List.length kept) (List.length l) = false)
      by (apply Nat.eqb_neq; lia).
    rewrite Hne. cbn [negb]. unfold await.
    rewrite (writeJSONFile_writable w kept Hw). reflexivity. }
  split.
  { rewrite (getById_run _ _ id Hk), find_map_toJSON.
    unfold kept. rewrite find_filter_same. reflexivity. }
  split.
  { rewrite (delete_run _ _ id Hk). cbv zeta.
    rewrite filter_none_rejected; [rewrite Nat.eqb_refl; reflexivity |].
    intros x Hx. apply in_map_iff in Hx. destruct Hx as [y [<- Hy]].
    apply List.filter_In in Hy. destruct Hy as [_ Hy].
    apply negb_true_iff in Hy. exact Hy. }
  intros id' Hne.
  rewrite (getById_run _ _ id' Hk), find_map_toJSON.
  unfold kept. rewrite (find_filter_other id id' l Hne). reflexivity.
Qed.

Lemma delete_then_lookup_witness :
  holds (storing taggedSnippets) taggedSnippets
  /\ exists w',
      StorageService.delete "b-0000" (storing taggedSnippets)
      = (Fulfilled true, w')
      /\ StorageService.getById "b-0000" w' = (Fulfilled None, w')
      /\ StorageService.delete "b-0000" w' = (Fulfilled false, w').
Proof.
  split; [reflexivity |].
  destruct (delete_then_lookup (storing taggedSnippets) taggedSnippets
              "b-0000" eq_refl) as [w' [H1 [H2 [H3 _]]]].
  - split; reflexivity.
  - exists (sampleSnippet "b-0000" "Simple variable" ["b"; "x"]).
    split; [right; left; reflexivity | reflexivity].
  - exists w'. split; [exact H1 |]. split; [exact H2 | exact H3].
Defined.

(** After an [update] that found the identifier, [getById] returns the
    updated record as it is serialized, a lookup of any other identifier
    answers as before, and the collection has the same identifiers in the
    same order: [update] neither adds, removes nor moves a record. *)
Theorem update_then_lookup :
  forall (w : World) (l : list Snippet.t) (id : UUID)
         (input : UpdateSnippetInput.t),
    holds w l ->
    writable w ->
    (exists s, In s l /\ Snippet.id s = id) ->
    exists u w' l',
      StorageService.update id input w = (Fulfilled (Some u), w')
      /\ holds w' l'
      /\ map Snippet.id l' = map Snippet.id l
      /\ StorageService.getById id w' = (Fulfilled (Some (Snippet.toJSON u)), w')
      /\ forall id',
          id' <> id ->
          StorageService.getById id' w'
          = (Fulfilled (option_map Snippet.toJSON (find (hasId id') l)), w').
Proof.
  intros w l id input Hl Hw [s [Hin Hid]].
  destruct (first_match_split (hasId id) l) as [pre [orig [post [El [Ho Hp]]]]].
  { exists s. split; [exact Hin | apply hasId_true; exact Hid]. }
  set (u := updated orig input (reading w 0)).
  exists u, (persisted (ticked 1 w) (pre ++ u :: post)),
    (map Snippet.toJSON (pre ++ u :: post)).
  pose proof (holds_persisted (ticked 1 w) (pre ++ u :: post)) as Hk.
  split.
  { subst l. apply update_present; [exact Hl | exact Hw | |].
    - apply hasId_true. exact Ho.
    - intros x Hx. apply hasId_false. apply Hp. exact Hx. }
  split; [exact Hk |].
  split.
  { rewrite map_toJSON_ids, El, !map_app. reflexivity. }
  split.
  { rewrite (getById_run _ _ id Hk), find_map_toJSON.
    rewrite find_first; [reflexivity | exact Hp | exact Ho]. }
  intros id' Hne.
  rewrite (getById_run _ _ id' Hk), find_map_toJSON, El.
  rewrite (find_replaced_other id' pre post orig u); [reflexivity | reflexivity |].
  apply hasId_false. apply hasId_true in Ho. congruence.
Qed.

Lemma update_then_lookup_witness :
  holds (storing taggedSnippets) taggedSnippets
  /\ exists u w',
      StorageService.update "b-0000" emptyUpdate (storing taggedSnippets)
      = (Fulfilled (Some u), w')
      /\ StorageService.getById "b-0000" w'
         = (Fulfilled (Some (Snippet.toJSON u)), w').
Proof.
  split; [reflexivity |].
  destruct (update_then_lookup (storing taggedSnippets) taggedSnippets
              "b-0000" emptyUpdate eq_refl) as [u [w' [l' [H1 [_ [_ [H2 _]]]]]]].
  - split; reflexivity.
  - exists (sampleSnippet "b-0000" "Simple variable" ["b"; "x"]).
    split; [right; left; reflexivity | reflexivity].
  - exists u, w'. split; [exact H1 | exact H2].
Defined.

(** ** Invariants of the collection *)

Lemma match_or_not (id : UUID) (l : list Snippet.t) :
  (exists s, In s l /\ Snippet.id s = id)
  \/ (forall s, In s l -> Snippet.id s <> id).
Proof.
  destruct (existsb (hasId id) l) eqn:E.
  - left. apply existsb_exists in E. destruct E as [s [Hin Hs]].
    exists s. split; [exact Hin | apply hasId_true; exact Hs].
  - right. intros s Hin. apply hasId_false.
    destruct (hasId id s) eqn:Hs; [| reflexivity].
    assert (existsb (hasId id) l = true)
      by (apply existsb_exists; exists s; tauto).
    congruence.
Qed.

Lemma NoDup_map_filter {A B : Type} (f : A -> B) (p : A -> bool)
      (l : list A) :
  NoDup (map f l) -> NoDup (map f (List.filter p l)).
Proof.
  induction l as [| x l IH]; cbn [map List.filter]; intros Hnd.
  - constructor.
  - inversion Hnd as [| ? ? Hnotin Hnd']; subst.
    destruct (p x); cbn [map]; [| apply IH; exact Hnd'].
    constructor; [| apply IH; exact Hnd'].
    intros Hin. apply Hnotin. apply in_map_iff in Hin.
    destruct Hin as [y [Hy Hin]]. apply List.filter_In in Hin.
    apply in_map_iff. exists y. tauto.
Qed.

Lemma NoDup_snoc {A : Type} (l : list A) (x : A) :
  NoDup (l ++ [x]) <-> NoDup l /\ ~ In x l.
Proof.
  split.
  - intros H. split.
    + apply (NoDup_app_remove_r _ _ H).
    + pose proof (NoDup_remove_2 l [] x H) as Hn.
      rewrite app_nil_r in Hn. exact Hn.
  - intros [Hnd Hn]. apply NoDup_app.
    + exact Hnd.
    + constructor; [intros [] | constructor].
    + intros a Ha [<- | []]. contradiction.
Qed.

(** Identifiers that are unique in the collection stay unique: [update]
    keeps the sequence of identifiers, [delete] only removes from it, and
    [add] keeps it unique exactly when the identifier of the record it
    returns is not already carried by a record ([add] itself makes no such
    check). *)
Theorem identifiers_stay_unique :
  forall (w : World) (l : list Snippet.t),
    holds w l ->
    writable w ->
    NoDup (map Snippet.id l) ->
    (forall input,
        exists r w' l',
          StorageService.add input w = (Fulfilled r, w')
          /\ holds w' l'
          /\ (NoDup (map Snippet.id l')
              <-> forall s, In s l -> Snippet.id s <> Snippet.id r))
    /\ (forall id input,
           exists res w' l',
             StorageService.update id input w = (Fulfilled res, w')
             /\ holds w' l'
             /\ map Snippet.id l' = map Snippet.id l
             /\ NoDup (map Snippet.id l'))
    /\ (forall id,
           exists found w' l',
             StorageService.delete id w = (Fulfilled found, w')
             /\ holds w' l'
             /\ NoDup (map Snippet.id l')).
Proof.
  intros w l Hl Hw Hnd. split; [| split].
  - intros input.
    set (r := created input (nextUuid w) (reading w 0) (reading w 1)).
    exists r, (persisted (ticked 2 (drawn w)) (l ++ [r])),
      (map Snippet.toJSON (l ++ [r])).
    split; [apply add_run; assumption |].
    split; [apply holds_persisted |].
    rewrite map_toJSON_ids, map_app. cbn [map]. rewrite NoDup_snoc.
    split.
    + intros [_ Hn] s Hs Heq. apply Hn. rewrite <- Heq.
      apply in_map. exact Hs.
    + intros Hfresh. split; [exact Hnd |].
      intros Hin. apply in_map_iff in Hin. destruct Hin as [s [Heq Hs]].
      exact (Hfresh s Hs Heq).
  - intros id input.
    destruct (match_or_not id l) as [[s [Hin Hid]] | Hnone].
    + destruct (first_match_split (hasId id) l)
        as [pre [orig [post [El [Ho Hp]]]]].
      { exists s. split; [exact Hin | apply hasId_true; exact Hid]. }
      set (u := updated orig input (reading w 0)).
      exists (Some u), (persisted (ticked 1 w) (pre ++ u :: post)),
        (map Snippet.toJSON (pre ++ u :: post)).
      assert (Hids : map Snippet.id (map Snippet.toJSON (pre ++ u :: post))
                     = map Snippet.id l).
      { rewrite map_toJSON_ids, El, !map_app. reflexivity. }
      split.
      { subst l. apply update_present; [exact Hl | exact Hw | |].
        - apply hasId_true. exact Ho.
        - intros x Hx. apply hasId_false. apply Hp. exact Hx. }
      split; [apply holds_persisted |].
      split; [exact Hids | rewrite Hids; exact Hnd].
    + exists None, w, l.
      split; [exact (update_absent w l id input Hl Hnone) |].
      split; [exact Hl |]. split; [reflexivity | exact Hnd].
  - intros id.
    set (kept := List.filter (fun x => negb (hasId id x)) l).
    destruct (match_or_not id l) as [[s [Hin Hid]] | Hnone].
    + exists true, (persisted w kept), (map Snippet.toJSON kept).
      split.
      { rewrite (delete_run w l id Hl). cbv zeta. fold kept.
        pose proof (filter_complement_length (hasId id) l) as Hlen.
        fold kept in Hlen.
        pose proof (countIf_positive (hasId id) l s Hin
                      (proj2 (hasId_true id s) Hid)) as Hpos.
        assert (Hne : Nat.eqb (List.length kept) (List.length l) = false)
          by (apply Nat.eqb_neq; lia).
        rewrite Hne. cbn [negb]. unfold await.
        rewrite (writeJSONFile_writable w kept Hw). reflexivity. }
      split; [apply holds_persisted |].
      rewrite map_toJSON_ids. apply NoDup_map_filter. exact Hnd.
    + exists false, w, l.
      split; [| split; [exact Hl | exact Hnd]].
      rewrite (delete_run w l id Hl). cbv zeta.
      rewrite filter_none_rejected; [rewrite Nat.eqb_refl; reflexivity |].
      intros x Hx. apply hasId_false. apply Hnone. exact Hx.
Qed.

Lemma identifiers_stay_unique_witness :
  holds (storing taggedSnippets) taggedSnippets
  /\ NoDup (map Snippet.id taggedSnippets)
  /\ (exists r w' l',
         StorageService.add (inputWithId "b-0000" "Again")
                            (storing taggedSnippets)
         = (Fulfilled r, w')
         /\ holds w' l'
         /\ (NoDup (map Snippet.id l')
             <-> forall s, In s taggedSnippets ->
                           Snippet.id s <> Snippet.id r))
  /\ (exists res w' l',
         StorageService.update "b-0000" emptyUpdate (storing taggedSnippets)
         = (Fulfilled res, w')
         /\ holds w' l'
         /\ map Snippet.id l' = map Snippet.id taggedSnippets)
  /\ (exists found w' l',
         StorageService.delete "b-0000" (storing taggedSnippets)
         = (Fulfilled found, w')
         /\ holds w' l'
         /\ NoDup (map Snippet.id l')).
Proof.
  assert (Hnd : NoDup (map Snippet.id taggedSnippets)).
  { cbn. repeat constructor; cbn; intros H;
      repeat (destruct H as [H | H]; [discriminate H |]); exact H. }
  pose proof (identifiers_stay_unique (storing taggedSnippets)
                taggedSnippets eq_refl (conj eq_refl eq_refl) Hnd)
    as [Hadd [Hupd Hdel]].
  split; [reflexivity |]. split; [exact Hnd |].
  split; [apply Hadd |]. split; [| apply Hdel].
  destruct (Hupd "b-0000" emptyUpdate) as [res [w' [l' [H1 [H2 [H3 _]]]]]].
  exists res, w', l'. split; [exact H1 |]. split; [exact H2 | exact H3].
Defined.

Lemma toJSON_serialized (s : Snippet.t) : serialized (Snippet.toJSON s).
Proof. split; eexists; reflexivity. Qed.

Lemma toJSON_fixed (s : Snippet.t) : serialized s -> Snippet.toJSON s = s.
Proof.
  destruct s as [i t d c la ca tg cr up fv].
  intros [[t1 H1] [t2 H2]]. cbn in H1, H2. subst cr up. reflexivity.
Qed.

Lemma map_toJSON_fixed (l : list Snippet.t) :
  Forall serialized l -> map Snippet.toJSON l = l.
Proof.
  induction 1 as [| x l Hx _ IH]; cbn [map].
  - reflexivity.
  - rewrite (toJSON_fixed x Hx), IH. reflexivity.
Qed.

Lemma map_toJSON_serialized (l : list Snippet.t) :
  Forall serialized (map Snippet.toJSON l).
Proof.
  induction l as [| x l IH]; cbn [map]; constructor;
    [apply toJSON_serialized | exact IH].
Qed.

(** Whatever the service writes, what is read back has both timestamps
    of every record as strings; and when the collection read had them as
    strings already (as any collection written by the service has), a
    change rewrites the untouched records exactly as they were: [add]
    only appends the serialized new record, [delete] only drops the
    records that carry the identifier. *)
Theorem changes_rewrite_records_unchanged :
  forall (w : World) (l : list Snippet.t),
    holds w l ->
    writable w ->
    (forall input,
        exists r w' l',
          StorageService.add input w = (Fulfilled r, w')
          /\ holds w' l'
          /\ Forall serialized l'
          /\ (Forall serialized l -> l' = l ++ [Snippet.toJSON r]))
    /\ (forall id,
           (exists s, In s l /\ Snippet.id s = id) ->
           exists w' l',
             StorageService.delete id w = (Fulfilled true, w')
             /\ holds w' l'
             /\ Forall serialized l'
             /\ (Forall serialized l ->
                 l' = List.filter (fun s => negb (hasId id s)) l)).
Proof.
  intros w l Hl Hw. split.
  - intros input.
    set (r := created input (nextUuid w) (reading w 0) (reading w 1)).
    exists r, (persisted (ticked 2 (drawn w)) (l ++ [r])),
      (map Snippet.toJSON (l ++ [r])).
    split; [apply add_run; assumption |].
    split; [apply holds_persisted |].
    split; [apply map_toJSON_serialized |].
    intros Hs. rewrite map_app, (map_toJSON_fixed l Hs). reflexivity.
  - intros id [s [Hin Hid]].
    set (kept := List.filter (fun x => negb (hasId id x)) l).
    exists (persisted w kept), (map Snippet.toJSON kept).
    split.
    { rewrite (delete_run w l id Hl). cbv zeta. fold kept.
      pose proof (filter_complement_length (hasId id) l) as Hlen.
      fold kept in Hlen.
      pose proof (countIf_positive (hasId id) l s Hin
                    (proj2 (hasId_true id s) Hid)) as Hpos.
      assert (Hne : Nat.eqb (List.length kept) (List.length l) = false)
        by (apply Nat.eqb_neq; lia).
      rewrite Hne. cbn [negb]. unfold await.
      rewrite (writeJSONFile_writable w kept Hw). reflexivity. }
    split; [apply holds_persisted |].
    split; [apply map_toJSON_serialized |].
    intros Hs. apply map_toJSON_fixed.
    rewrite Forall_forall in *. intros x Hx. apply Hs.
    unfold kept in Hx. apply List.filter_In in Hx. tauto.
Qed.

Lemma changes_rewrite_records_unchanged_witness :
  holds (storing taggedSnippets) taggedSnippets
  /\ exists w' l',
      StorageService.delete "b-0000" (storing taggedSnippets)
      = (Fulfilled true, w')
      /\ holds w' l'
      /\ Forall serialized l'.
Proof.
  split; [reflexivity |].
  destruct (proj2 (changes_rewrite_records_unchanged (storing taggedSnippets)
                     taggedSnippets eq_refl (conj eq_refl eq_refl)) "b-0000")
    as [w' [l' [H1 [H2 [H3 _]]]]].
  - exists (sampleSnippet "b-0000" "Simple variable" ["b"; "x"]).
    split; [right; left; reflexivity | reflexivity].
  - exists w', l'. split; [exact H1 |]. split; [exact H2 | exact H3].
Defined.

(** ** The criteria of [filter] *)

(** The criteria of [filter] combine by conjunction: a record is in the
    answer exactly when it is in the collection and passes every
    criterion that is set.  The query passes when its case-folded text
    occurs in the case-folded title, description or code; language and
    category pass on exact equality; tags pass on one common tag; favorite
    passes on equality with the flag, [false] included.  An empty query,
    language, category or tag sequence asks nothing. *)
Theorem filter_applies_every_criterion :
  forall (w : World) (l : list Snippet.t) (f : SnippetFilter.t),
    holds w l ->
    exists res,
      StorageService.filter (Some f) w = (Fulfilled res, w)
      /\ forall s, In s res <-> In s l /\ satisfies f s.
Proof.
  intros w l f Hl.
  destruct (filter_In_result w l f Hl) as [res [Hrun Hin]].
  exists res. split; [exact Hrun |].
  intros s. rewrite Hin, matches_satisfies. tauto.
Qed.

Lemma filter_applies_every_criterion_witness :
  holds (storing taggedSnippets) taggedSnippets
  /\ exists res,
      StorageService.filter
        (Some (SnippetFilter.make (Some "SIMPLE") (Some "javascript") None
                                  (Some ["x"]) (Some false) None None))
        (storing taggedSnippets)
      = (Fulfilled res, storing taggedSnippets)
      /\ forall s,
          In s res
          <-> In s taggedSnippets
              /\ satisfies
                   (SnippetFilter.make (Some "SIMPLE") (Some "javascript")
                                       None (Some ["x"]) (Some false)
                                       None None) s.
Proof.
  split; [reflexivity |].
  apply (filter_applies_every_criterion (storing taggedSnippets)
           taggedSnippets _ eq_refl).
Defined.

Lemma lowerAscii_idempotent (c : ascii) :
  lowerAscii (lowerAscii c) = lowerAscii c.
Proof.
  destruct c as [[] [] [] [] [] [] [] []]; reflexivity.
Qed.

Lemma toLowerCase_idempotent (s : string) :
  toLowerCase (toLowerCase s) = toLowerCase s.
Proof.
  induction s as [| c s IH]; cbn.
  - reflexivity.
  - rewrite lowerAscii_idempotent, IH. reflexivity.
Qed.

Lemma toLowerCase_empty (s : string) : toLowerCase s = "" <-> s = "".
Proof.
  destruct s; cbn; split; intros H; try reflexivity; discriminate H.
Qed.

Lemma truthy_toLowerCase (q q' : string) :
  toLowerCase q = toLowerCase q' -> truthy q = truthy q'.
Proof.
  intros H. destruct (truthy q) eqn:Hq; symmetry.
  - apply truthy_true. apply truthy_true in Hq. intros ->.
    apply Hq. apply toLowerCase_empty. rewrite H. reflexivity.
  - apply truthy_spec. apply truthy_spec in Hq. subst q.
    apply toLowerCase_empty. rewrite <- H. reflexivity.
Qed.

Lemma matches_query_case (q q' : string) (f : SnippetFilter.t)
      (s : Snippet.t) :
  toLowerCase q = toLowerCase q' ->
  StorageService.matches (withQuery (Some q) f) s
  = StorageService.matches (withQuery (Some q') f) s.
Proof.
  intros H. unfold StorageService.matches, withQuery.
  cbn [SnippetFilter.query SnippetFilter.language SnippetFilter.category
       SnippetFilter.tags SnippetFilter.favorite].
  rewrite (truthy_toLowerCase q q' H), H. reflexivity.
Qed.

(** The query is matched without regard to case: two queries with the
    same case-folded text give the same answer, whatever the other
    criteria and the state of the store; in particular a query and its
    lower-case form, in [filter] and in [search]. *)
Theorem query_ignores_case :
  forall (q q' : string) (f : SnippetFilter.t) (w : World),
    toLowerCase q = toLowerCase q' ->
    StorageService.filter (Some (withQuery (Some q) f)) w
    = StorageService.filter (Some (withQuery (Some q') f)) w
    /\ StorageService.search q w = StorageService.search q' w
    /\ StorageService.search q w = StorageService.search (toLowerCase q) w.
Proof.
  intros q q' f w H.
  split; [| split].
  - apply filter_ext; [intros s; apply matches_query_case; exact H | |];
      reflexivity.
  - apply (filter_ext (withQuery (Some q) SnippetFilter.empty)
                      (withQuery (Some q') SnippetFilter.empty));
      [intros s; apply matches_query_case; exact H | |]; reflexivity.
  - apply (filter_ext (withQuery (Some q) SnippetFilter.empty)
                      (withQuery (Some (toLowerCase q)) SnippetFilter.empty));
      [intros s; apply matches_query_case | |]; try reflexivity.
    symmetry. apply toLowerCase_idempotent.
Qed.

Lemma query_ignores_case_witness :
  toLowerCase "React" = toLowerCase "rEACT"
  /\ StorageService.search "React" (storing taggedSnippets)
     = StorageService.search "rEACT" (storing taggedSnippets).
Proof.
  split; [reflexivity |].
  apply (query_ignores_case "React" "rEACT" SnippetFilter.empty
           (storing taggedSnippets) eq_refl).
Defined.


(** ** Sorting options *)

(** [sortBy] only reorders the answer: with it the answer is a
    rearrangement of the answer without it; a [sortOrder] given without
    [sortBy] has no effect; and an absent [sortOrder] means ascending. *)
Theorem sort_only_reorders :
  forall (q : option string) (la : option SnippetLanguage)
         (ca : option SnippetCategory) (tg : option (list string))
         (fa : option bool) (w : World),
    (forall order,
        StorageService.filter
          (Some (SnippetFilter.make q la ca tg fa None (Some order))) w
        = StorageService.filter
            (Some (SnippetFilter.make q la ca tg fa None None)) w)
    /\ (forall field,
           StorageService.filter
             (Some (SnippetFilter.make q la ca tg fa (Some field) None)) w
           = StorageService.filter
               (Some (SnippetFilter.make q la ca tg fa (Some field)
                                         (Some asc))) w)
    /\ (forall field order l,
           holds w l ->
           exists sorted plain,
             StorageService.filter
               (Some (SnippetFilter.make q la ca tg fa (Some field) order)) w
             = (Fulfilled sorted, w)
             /\ StorageService.filter
                  (Some (SnippetFilter.make q la ca tg fa None None)) w
                = (Fulfilled plain, w)
             /\ Permutation sorted plain
             /\ List.length sorted = List.length plain).
Proof.
  intros q la ca tg fa w. split; [| split].
  - intros order. unfold StorageService.filter, await. cbn [nullish].
    destruct (StorageService.readJSONFile w) as [[l | e] w']; reflexivity.
  - intros field. reflexivity.
  - intros field order l Hl.
    rewrite (filter_run w l _ Hl), (filter_run w l _ Hl).
    cbn [SnippetFilter.sortBy SnippetFilter.sortOrder].
    eexists. eexists. split; [reflexivity |]. split; [reflexivity |].
    assert (Hp : Permutation
                   (StorageService.sortSnippets
                      (List.filter
                         (StorageService.matches
                            (SnippetFilter.make q la ca tg fa (Some field)
                                                order)) l)
                      (SnippetSort.make field (nullish order asc)))
                   (List.filter
                      (StorageService.matches
                         (SnippetFilter.make q la ca tg fa None None)) l)).
    { apply Array_sort_perm. }
    split; [exact Hp | apply Permutation_length; exact Hp].
Qed.

Lemma sort_only_reorders_witness :
  holds (storing taggedSnippets) taggedSnippets
  /\ exists sorted plain,
      StorageService.filter (Some (sortedBy byTitle desc))
                            (storing taggedSnippets)
      = (Fulfilled sorted, storing taggedSnippets)
      /\ StorageService.filter (Some SnippetFilter.empty)
                               (storing taggedSnippets)
         = (Fulfilled plain, storing taggedSnippets)
      /\ Permutation sorted plain.
Proof.
  split; [reflexivity |].
  destruct (proj2 (proj2 (sort_only_reorders None None None None None
                            (storing taggedSnippets)))
              byTitle (Some desc) taggedSnippets eq_refl)
    as [sorted [plain [H1 [H2 [H3 _]]]]].
  exists sorted, plain. split; [exact H1 |]. split; [exact H2 | exact H3].
Defined.

(** ** The tables of languages and categories *)

Lemma distinct_NoDup (l : list string) : distinct l = true -> NoDup l.
Proof.
  induction l as [| x l IH]; cbn [distinct]; intros H.
  - constructor.
  - apply andb_true_iff in H. destruct H as [Hx Hl].
    constructor; [| apply IH; exact Hl].
    intros Hin. apply Array_includes_In in Hin.
    rewrite Hin in Hx. discriminate Hx.
Qed.

Lemma exact_only (w : World) (l : list Snippet.t) (f : SnippetFilter.t)
      (p : Snippet.t -> bool) :
  holds w l ->
  SnippetFilter.sortBy f = None ->
  (forall s, StorageService.matches f s = p s) ->
  StorageService.filter (Some f) w = (Fulfilled (List.filter p l), w).
Proof.
  intros Hl Hby Hm. rewrite (filter_run w l f Hl), Hby.
  rewrite (List.filter_ext _ _ Hm). reflexivity.
Qed.

(** The names in [SNIPPET_LANGUAGES] and in [SNIPPET_CATEGORIES] are
    pairwise different and none is empty, so a language or category
    criterion taken from the tables is never skipped: the answer is, in
    file order, the records whose language (category) is that very
    string. *)
Theorem table_criteria_are_exact :
  NoDup SNIPPET_LANGUAGES
  /\ NoDup SNIPPET_CATEGORIES
  /\ (forall (w : World) (l : list Snippet.t) (x : SnippetLanguage),
         holds w l ->
         In x SNIPPET_LANGUAGES ->
         StorageService.filter (Some (languageOnly x)) w
         = (Fulfilled
              (List.filter (fun s => String.eqb (Snippet.language s) x) l),
            w))
  /\ (forall (w : World) (l : list Snippet.t) (x : SnippetCategory),
         holds w l ->
         In x SNIPPET_CATEGORIES ->
         StorageService.filter (Some (categoryOnly x)) w
         = (Fulfilled
              (List.filter (fun s => String.eqb (Snippet.category s) x) l),
            w)).
Proof.
  assert (HL : forall x, In x SNIPPET_LANGUAGES -> truthy x = true).
  { apply Forall_forall. unfold SNIPPET_LANGUAGES.
    repeat (constructor; [reflexivity |]). constructor. }
  assert (HC : forall x, In x SNIPPET_CATEGORIES -> truthy x = true).
  { apply Forall_forall. unfold SNIPPET_CATEGORIES.
    repeat (constructor; [reflexivity |]). constructor. }
  split; [apply distinct_NoDup; reflexivity |].
  split; [apply distinct_NoDup; reflexivity |].
  split.
  - intros w l x Hl Hx. apply exact_only; [exact Hl | reflexivity |].
    intros s. unfold StorageService.matches, languageOnly.
    cbn [SnippetFilter.query SnippetFilter.language SnippetFilter.category
         SnippetFilter.tags SnippetFilter.favorite].
    rewrite (HL x Hx). cbn [andb].
    destruct (String.eqb (Snippet.language s) x); reflexivity.
  - intros w l x Hl Hx. apply exact_only; [exact Hl | reflexivity |].
    intros s. unfold StorageService.matches, categoryOnly.
    cbn [SnippetFilter.query SnippetFilter.language SnippetFilter.category
         SnippetFilter.tags SnippetFilter.favorite].
    rewrite (HC x Hx). cbn [andb].
    destruct (String.eqb (Snippet.category s) x); reflexivity.
Qed.

Lemma table_criteria_are_exact_witness :
  holds (storing taggedSnippets) taggedSnippets
  /\ In "javascript" SNIPPET_LANGUAGES
  /\ StorageService.filter (Some (languageOnly "javascript"))
                           (storing taggedSnippets)
     = (Fulfilled taggedSnippets, storing taggedSnippets).
Proof.
  split; [reflexivity |]. split; [left; reflexivity |].
  apply (proj1 (proj2 (proj2 table_criteria_are_exact))
           (storing taggedSnippets) taggedSnippets "javascript" eq_refl).
  left. reflexivity.
Defined.

(** ** Sorting: fixed points, reversal and ties *)

Section ArraySortFixed.
Context {A : Type} (cmp : A -> A -> Z).

Lemma sortInsert_front (x : A) (l : list A) :
  HdRel (fun a b => cmp a b <= 0) x l -> sortInsert cmp x l = x :: l.
Proof.
  intros H. destruct l as [| y l]; [reflexivity |].
  inversion H as [| ? ? Hxy]; subst. cbn [sortInsert].
  apply Z.leb_le in Hxy. rewrite Hxy. reflexivity.
Qed.

Lemma Array_sort_fixed (l : list A) :
  Sorted (fun a b => cmp a b <= 0) l -> Array_sort cmp l = l.
Proof.
  induction 1 as [| x l Hs IH Hhd]; cbn [Array_sort].
  - reflexivity.
  - rewrite IH. apply sortInsert_front. exact Hhd.
Qed.

Lemma sortInsert_skip (x : A) (front back : list A) :
  (forall y, In y front -> 0 < cmp x y) ->
  sortInsert cmp x (front ++ back) = front ++ sortInsert cmp x back.
Proof.
  induction front as [| y front IH]; cbn [app sortInsert]; intros Hgt.
  - reflexivity.
  - assert (Hy : (cmp x y <=? 0) = false)
      by (apply Z.leb_gt; apply Hgt; left; reflexivity).
    rewrite Hy, IH; [reflexivity |].
    intros z Hz. apply Hgt. right. exact Hz.
Qed.
End ArraySortFixed.

Lemma StronglySorted_snoc {A : Type} (R : A -> A -> Prop) (l : list A)
      (x : A) :
  StronglySorted R l -> Forall (fun y => R y x) l ->
  StronglySorted R (l ++ [x]).
Proof.
  induction 1 as [| y l Hs IH Hall]; cbn [app]; intros Hx.
  - constructor; constructor.
  - inversion Hx as [| ? ? Hyx Hx']; subst.
    constructor; [apply IH; exact Hx' |].
    apply Forall_app. split; [exact Hall |].
    constructor; [exact Hyx | constructor].
Qed.

Lemma StronglySorted_rev {A : Type} (R : A -> A -> Prop) (l : list A) :
  StronglySorted R l -> StronglySorted (fun a b => R b a) (rev l).
Proof.
  induction 1 as [| x l Hs IH Hall]; cbn [rev].
  - constructor.
  - apply StronglySorted_snoc; [exact IH |].
    apply Forall_rev. exact Hall.
Qed.

(** Two ordered rearrangements of one list are the same list, when
    elements that may come in either order are equal. *)
Lemma sorted_rearrangement_unique {A : Type} (R : A -> A -> Prop)
      (l1 : list A) :
  forall l2 : list A,
    (forall a b, In a l1 -> In b l1 -> R a b -> R b a -> a = b) ->
    StronglySorted R l1 -> StronglySorted R l2 -> Permutation l1 l2 ->
    l1 = l2.
Proof.
  induction l1 as [| a l1 IH]; intros l2 Hanti H1 H2 Hp.
  - apply Permutation_nil in Hp. subst. reflexivity.
  - destruct l2 as [| b l2].
    { apply Permutation_sym, Permutation_nil in Hp. discriminate Hp. }
    inversion H1 as [| ? ? H1' Ha]; subst.
    inversion H2 as [| ? ? H2' Hb]; subst.
    assert (Hab : a = b).
    { assert (Hin_a : In a (b :: l2))
        by (apply (Permutation_in _ Hp); left; reflexivity).
      assert (Hin_b : In b (a :: l1))
        by (apply (Permutation_in _ (Permutation_sym Hp)); left; reflexivity).
      destruct Hin_a as [Hba | Hin_a]; [symmetry; exact Hba |].
      destruct Hin_b as [Heq | Hin_b]; [exact Heq |].
      apply Hanti.
      - left. reflexivity.
      - right. exact Hin_b.
      - exact (proj1 (Forall_forall _ _) Ha b Hin_b).
      - exact (proj1 (Forall_forall _ _) Hb a Hin_a). }
    subst b. f_equal. apply IH.
    + intros x y Hx Hy. apply Hanti; right; assumption.
    + exact H1'.
    + exact H2'.
    + exact (Permutation_cons_inv Hp).
Qed.

Lemma inOrder_desc (field : SnippetSortField) (a b : Snippet.t) :
  inOrder (SnippetSort.make field desc) a b
  <-> inOrder (SnippetSort.make field asc) b a.
Proof.
  unfold inOrder.
  rewrite compareSnippets_desc, !compareSnippets_asc.
  rewrite (keyCompare_antisym field b a).
  destruct (keyCompare field a b); cbn; lia.
Qed.

Lemma StronglySorted_iff {A : Type} (R S : A -> A -> Prop) (l : list A) :
  (forall a b, R a b <-> S a b) -> StronglySorted R l -> StronglySorted S l.
Proof.
  intros H. induction 1 as [| x l Hs IH Hall]; constructor.
  - exact IH.
  - apply Forall_forall. intros y Hy. apply H.
    exact (proj1 (Forall_forall _ _) Hall y Hy).
Qed.

(** Sorting an answer again by the same field and order changes nothing,
    and a collection that is already in order is returned as it is.
    When no two records of the list have the same key, the descending
    result is the ascending result reversed. *)
Theorem sorting_again_and_reversed :
  (forall (l : list Snippet.t) (sort : SnippetSort.t),
      StorageService.sortSnippets (StorageService.sortSnippets l sort) sort
      = StorageService.sortSnippets l sort)
  /\ (forall (w : World) (l : list Snippet.t) (field : SnippetSortField)
             (order : SortOrder),
         holds w l ->
         Sorted (inOrder (SnippetSort.make field order)) l ->
         StorageService.filter (Some (sortedBy field order)) w
         = (Fulfilled l, w))
  /\ (forall (l : list Snippet.t) (field : SnippetSortField),
         (forall a b,
             In a l -> In b l ->
             StorageService.compareSnippets (SnippetSort.make field asc) a b
             = 0 ->
             a = b) ->
         StorageService.sortSnippets l (SnippetSort.make field desc)
         = rev (StorageService.sortSnippets l (SnippetSort.make field asc))).
Proof.
  split; [| split].
  - intros l sort. unfold StorageService.sortSnippets.
    apply Array_sort_fixed. apply Array_sort_sorted.
    apply compareSnippets_total.
  - intros w l field order Hl Hs.
    rewrite (filter_sorted_run w l (sortedBy field order) field Hl eq_refl).
    do 2 f_equal. cbn [sortedBy SnippetFilter.sortOrder nullish].
    rewrite (List.filter_ext _ (fun _ => true)) by reflexivity.
    rewrite List.filter_true.
    unfold StorageService.sortSnippets. apply Array_sort_fixed. exact Hs.
  - intros l field Hties.
    set (d := SnippetSort.make field desc).
    set (a := SnippetSort.make field asc).
    destruct (sortSnippets_sorts l d) as [Hpd Hsd].
    destruct (sortSnippets_sorts l a) as [Hpa Hsa].
    apply (sorted_rearrangement_unique (inOrder d)).
    + intros x y Hx Hy Hxy Hyx.
      apply Hties.
      * exact (Permutation_in _ Hpd Hx).
      * exact (Permutation_in _ Hpd Hy).
      * apply inOrder_desc in Hxy, Hyx. unfold inOrder in Hxy, Hyx.
        pose proof (compareSnippets_total a x y) as Ht.
        pose proof (compareSnippets_total a y x) as Ht'.
        fold a in Hxy, Hyx.
        rewrite !(compareSnippets_asc field) in *.
        rewrite (keyCompare_antisym field y x) in *.
        destruct (keyCompare field x y); cbn in *; lia.
    + exact Hsd.
    + apply (StronglySorted_iff (fun x y => inOrder a y x)).
      * intros x y. symmetry. apply inOrder_desc.
      * apply StronglySorted_rev. exact Hsa.
    + apply Permutation_trans with l; [exact Hpd |].
      apply Permutation_trans with (StorageService.sortSnippets l a).
      * apply Permutation_sym. exact Hpa.
      * apply Permutation_rev.
Qed.

Lemma sorting_again_and_reversed_witness :
  (holds (storing taggedSnippets) taggedSnippets
   /\ Sorted (inOrder (SnippetSort.make byCreatedAt asc)) taggedSnippets
   /\ StorageService.filter (Some (sortedBy byCreatedAt asc))
                            (storing taggedSnippets)
      = (Fulfilled taggedSnippets, storing taggedSnippets))
  /\ StorageService.sortSnippets taggedSnippets (SnippetSort.make byTitle desc)
     = rev (StorageService.sortSnippets taggedSnippets
              (SnippetSort.make byTitle asc)).
Proof.
  assert (Hs : Sorted (inOrder (SnippetSort.make byCreatedAt asc))
                      taggedSnippets).
  { unfold taggedSnippets.
    repeat (constructor; try (vm_compute; discriminate)). }
  split.
  - split; [reflexivity |]. split; [exact Hs |].
    apply (proj1 (proj2 sorting_again_and_reversed)
             (storing taggedSnippets) taggedSnippets byCreatedAt asc eq_refl).
    exact Hs.
  - apply (proj2 (proj2 sorting_again_and_reversed) taggedSnippets byTitle).
    intros a b [<- | [<- | [<- | []]]] [<- | [<- | [<- | []]]] H;
      try reflexivity; vm_compute in H; discriminate H.
Defined.

Lemma compareSnippets_favorite_desc (a b : Snippet.t) :
  StorageService.compareSnippets (SnippetSort.make byFavorite desc) a b
  = match Snippet.favorite a, Snippet.favorite b with
    | true, false => -1
    | false, true => 1
    | _, _ => 0
    end.
Proof.
  rewrite compareSnippets_desc, (compareSnippets_asc byFavorite). cbn.
  destruct (Snippet.favorite a), (Snippet.favorite b); reflexivity.
Qed.

Lemma compareSnippets_favorite_asc (a b : Snippet.t) :
  StorageService.compareSnippets (SnippetSort.make byFavorite asc) a b
  = match Snippet.favorite a, Snippet.favorite b with
    | false, true => -1
    | true, false => 1
    | _, _ => 0
    end.
Proof.
  rewrite (compareSnippets_asc byFavorite). cbn.
  destruct (Snippet.favorite a), (Snippet.favorite b); reflexivity.
Qed.

(** Sorting by [favorite] splits the list in two and keeps each part in
    its original order: descending, the favorites and then the others;
    ascending, the others and then the favorites.  So with ties the
    descending result is not the ascending one reversed. *)
Theorem sort_by_favorite_partitions :
  forall l : list Snippet.t,
    StorageService.sortSnippets l (SnippetSort.make byFavorite desc)
    = List.filter Snippet.favorite l
      ++ List.filter (fun s => negb (Snippet.favorite s)) l
    /\ StorageService.sortSnippets l (SnippetSort.make byFavorite asc)
       = List.filter (fun s => negb (Snippet.favorite s)) l
         ++ List.filter Snippet.favorite l.
Proof.
  intros l. unfold StorageService.sortSnippets.
  induction l as [| x l [IHd IHa]]; [split; reflexivity |].
  cbn [Array_sort List.filter]. rewrite IHd, IHa.
  set (favs := List.filter Snippet.favorite l).
  set (rest := List.filter (fun s => negb (Snippet.favorite s)) l).
  assert (Hfavs : forall y, In y favs -> Snippet.favorite y = true).
  { intros y Hy. apply List.filter_In in Hy. tauto. }
  assert (Hrest : forall y, In y rest -> Snippet.favorite y = false).
  { intros y Hy. apply List.filter_In in Hy. apply negb_true_iff. tauto. }
  destruct (Snippet.favorite x) eqn:Hx; cbn [negb app]; split.
  - apply sortInsert_front.
    destruct (favs ++ rest) as [| y t]; constructor.
    rewrite compareSnippets_favorite_desc, Hx.
    destruct (Snippet.favorite y); lia.
  - rewrite sortInsert_skip.
    + f_equal. apply sortInsert_front.
      destruct favs as [| y t] eqn:E; constructor.
      rewrite compareSnippets_favorite_asc, Hx, (Hfavs y); [lia |].
      left. reflexivity.
    + intros y Hy. rewrite compareSnippets_favorite_asc, Hx, (Hrest y Hy).
      lia.
  - rewrite sortInsert_skip.
    + f_equal. apply sortInsert_front.
      destruct rest as [| y t] eqn:E; constructor.
      rewrite compareSnippets_favorite_desc, Hx, (Hrest y); [lia |].
      left. reflexivity.
    + intros y Hy. rewrite compareSnippets_favorite_desc, Hx, (Hfavs y Hy).
      lia.
  - apply sortInsert_front.
    destruct (rest ++ favs) as [| y t]; constructor.
    rewrite compareSnippets_favorite_asc, Hx.
    destruct (Snippet.favorite y); lia.
Qed.

(** ** Timestamps *)

(** The record that [update] returns carries the [createdAt] it read from
    the file, a string, next to a fresh [Date] for [updatedAt]; what it
    persists has both as strings, for the same instants. *)
Theorem update_returns_mixed_timestamps :
  forall (w : World) (l : list Snippet.t) (id : UUID)
         (input : UpdateSnippetInput.t),
    holds w l ->
    writable w ->
    Forall serialized l ->
    (exists s, In s l /\ Snippet.id s = id) ->
    exists u w' stored created,
      StorageService.update id input w = (Fulfilled (Some u), w')
      /\ Snippet.createdAt u = IsoString created
      /\ Snippet.updatedAt u = DateObject (reading w 0)
      /\ StorageService.getById id w' = (Fulfilled (Some stored), w')
      /\ Snippet.createdAt stored = IsoString created
      /\ Snippet.updatedAt stored = IsoString (reading w 0).
Proof.
  intros w l id input Hl Hw Hser [s [Hin Hid]].
  destruct (first_match_split (hasId id) l) as [pre [orig [post [El [Ho Hp]]]]].
  { exists s. split; [exact Hin | apply hasId_true; exact Hid]. }
  assert (Horig : serialized orig).
  { rewrite Forall_forall in Hser. apply Hser. rewrite El.
    apply in_or_app. right. left. reflexivity. }
  destruct Horig as [[t Ht] _].
  set (u := updated orig input (reading w 0)).
  pose proof (holds_persisted (ticked 1 w) (pre ++ u :: post)) as Hk.
  exists u, (persisted (ticked 1 w) (pre ++ u :: post)), (Snippet.toJSON u), t.
  split.
  { subst l. apply update_present; [exact Hl | exact Hw | |].
    - apply hasId_true. exact Ho.
    - intros x Hx. apply hasId_false. apply Hp. exact Hx. }
  split; [exact Ht |]. split; [reflexivity |].
  split.
  { rewrite (getById_run _ _ id Hk), find_map_toJSON.
    rewrite find_first; [reflexivity | exact Hp | exact Ho]. }
  split; [| reflexivity].
  cbn. rewrite Ht. reflexivity.
Qed.

Lemma update_returns_mixed_timestamps_witness :
  holds (storing taggedSnippets) taggedSnippets
  /\ exists u w' created,
      StorageService.update "b-0000" emptyUpdate (storing taggedSnippets)
      = (Fulfilled (Some u), w')
      /\ Snippet.createdAt u = IsoString created
      /\ Snippet.updatedAt u = DateObject 1700000000000.
Proof.
  split; [reflexivity |].
  destruct (update_returns_mixed_timestamps (storing taggedSnippets)
              taggedSnippets "b-0000" emptyUpdate eq_refl)
    as [u [w' [stored [t [H1 [H2 [H3 _]]]]]]].
  - split; reflexivity.
  - unfold taggedSnippets.
    repeat (constructor; [split; eexists; reflexivity |]). constructor.
  - exists (sampleSnippet "b-0000" "Simple variable" ["b"; "x"]).
    split; [right; left; reflexivity | reflexivity].
  - exists u, w', t. split; [exact H1 |]. split; [exact H2 | exact H3].
Defined.

Lemma keyCompare_toJSON (field : SnippetSortField) (a b : Snippet.t) :
  keyCompare field (Snippet.toJSON a) (Snippet.toJSON b)
  = keyCompare field a b.
Proof. destruct field; reflexivity. Qed.

Lemma inOrder_toJSON (sort : SnippetSort.t) (a b : Snippet.t) :
  inOrder sort (Snippet.toJSON a) (Snippet.toJSON b) <-> inOrder sort a b.
Proof.
  unfold inOrder. destruct sort as [field [|]];
    rewrite ?compareSnippets_desc, !compareSnippets_asc, keyCompare_toJSON;
    reflexivity.
Qed.

Lemma StronglySorted_map_toJSON (sort : SnippetSort.t) (l : list Snippet.t) :
  StronglySorted (inOrder sort) l ->
  StronglySorted (inOrder sort) (map Snippet.toJSON l).
Proof.
  induction 1 as [| x l Hs IH Hall]; cbn [map]; constructor.
  - exact IH.
  - apply Forall_forall. intros y Hy. apply in_map_iff in Hy.
    destruct Hy as [z [<- Hz]]. apply inOrder_toJSON.
    exact (proj1 (Forall_forall _ _) Hall z Hz).
Qed.

Lemma inOrder_createdAt (a b : Snippet.t) :
  inOrder (SnippetSort.make byCreatedAt asc) a b
  <-> getTime (Snippet.createdAt a) <= getTime (Snippet.createdAt b).
Proof.
  unfold inOrder. rewrite (compareSnippets_asc byCreatedAt). cbn.
  destruct (Z.compare_spec (getTime (Snippet.createdAt a))
                           (getTime (Snippet.createdAt b))); cbn; lia.
Qed.

Lemma addEach_in_creation_order (inputs : list CreateSnippetInput.t) :
  forall (w : World) (l : list Snippet.t),
    holds w l ->
    writable w ->
    (forall i j, (i <= j)%nat -> clockSource w i <= clockSource w j) ->
    StronglySorted (inOrder (SnippetSort.make byCreatedAt asc)) l ->
    (forall s, In s l -> getTime (Snippet.createdAt s) <= reading w 0) ->
    exists rs w' l',
      addEach inputs w = (Fulfilled rs, w')
      /\ holds w' l'
      /\ StronglySorted (inOrder (SnippetSort.make byCreatedAt asc)) l'.
Proof.
  induction inputs as [| input rest IH]; intros w l Hl Hw Hmono Hs Hb.
  - exists [], w, l. split; [reflexivity |]. split; [exact Hl | exact Hs].
  - pose (r := created input (nextUuid w) (reading w 0) (reading w 1)).
    pose (w1 := persisted (ticked 2 (drawn w)) (l ++ [r])).
    destruct (IH w1 (map Snippet.toJSON (l ++ [r])))
      as [rs [w' [l' [Hrun [Hl' Hs']]]]].
    + apply holds_persisted.
    + exact Hw.
    + exact Hmono.
    + apply StronglySorted_map_toJSON. apply StronglySorted_snoc; [exact Hs |].
      apply Forall_forall. intros y Hy. apply inOrder_createdAt.
      exact (Hb y Hy).
    + intros s Hs1. apply in_map_iff in Hs1. destruct Hs1 as [y [<- Hy]].
      change (getTime (Snippet.createdAt y)
              <= clockSource w (2 + clockRead w)%nat).
      apply in_app_or in Hy. destruct Hy as [Hy | [<- | []]].
      * apply Z.le_trans with (reading w 0); [exact (Hb y Hy) |].
        apply Hmono. lia.
      * apply Hmono. lia.
    + exists (r :: rs), w', l'. split; [| split; [exact Hl' | exact Hs']].
      cbn [addEach]. unfold await at 1.
      rewrite (add_run w l input Hl Hw). fold r w1.
      unfold await. rewrite Hrun. reflexivity.
Qed.

(** With a clock that never goes back, the order of the file is the order
    of creation: after any number of sequential adds on an empty store,
    sorting by [createdAt] ascending returns the collection exactly as
    [getAll] does. *)
Theorem creation_order_is_file_order :
  forall (w : World) (inputs : list CreateSnippetInput.t),
    holds w [] ->
    writable w ->
    (forall i j, (i <= j)%nat -> clockSource w i <= clockSource w j) ->
    exists rs w' l',
      addEach inputs w = (Fulfilled rs, w')
      /\ List.length rs = List.length inputs
      /\ StorageService.getAll w' = (Fulfilled l', w')
      /\ StorageService.filter (Some (sortedBy byCreatedAt asc)) w'
         = (Fulfilled l', w').
Proof.
  intros w inputs Hl Hw Hmono.
  destruct (addEach_in_creation_order inputs w [] Hl Hw Hmono)
    as [rs [w' [l' [Hrun [Hl' Hs']]]]].
  { constructor. }
  { intros s []. }
  destruct (addEach_run inputs w [] Hl Hw)
    as [rs2 [w2 [l2 [Hrun2 [_ [_ [Hlen _]]]]]]].
  assert (rs2 = rs) by congruence. subst rs2.
  exists rs, w', l'. split; [exact Hrun |].
  split; [exact Hlen |].
  split; [exact Hl' |].
  rewrite (filter_sorted_run w' l' (sortedBy byCreatedAt asc) byCreatedAt
             Hl' eq_refl).
  do 2 f_equal. cbn [sortedBy SnippetFilter.sortOrder nullish].
  rewrite (List.filter_ext _ (fun _ => true)) by reflexivity.
  rewrite List.filter_true.
  unfold StorageService.sortSnippets. apply Array_sort_fixed.
  apply StronglySorted_Sorted. exact Hs'.
Qed.

Lemma creation_order_is_file_order_witness :
  holds freshWorld []
  /\ exists rs w' l',
      addEach [sampleInput "Zebra"; sampleInput "Apple"] freshWorld
      = (Fulfilled rs, w')
      /\ StorageService.getAll w' = (Fulfilled l', w')
      /\ StorageService.filter (Some (sortedBy byCreatedAt asc)) w'
         = (Fulfilled l', w').
Proof.
  split; [reflexivity |].
  destruct (creation_order_is_file_order freshWorld
              [sampleInput "Zebra"; sampleInput "Apple"] eq_refl)
    as [rs [w' [l' [H1 [_ [H2 H3]]]]]].
  - split; reflexivity.
  - intros i j Hij.
    change (1700000000000 + Z.of_nat i <= 1700000000000 + Z.of_nat j). lia.
  - exists rs, w', l'. split; [exact H1 |]. split; [exact H2 | exact H3].
Defined.
